(** * Sidebar synchroniser ([.misc/update_pages.py])

    A shallow embedding of the maintenance script that rewrites the
    navigation sidebar of the static design pages and makes sure the
    icon font stylesheet is linked, together with the properties of the
    script that its specification states.

    Conventions of the model.
    - Python [str] values are Rocq [string]s holding the UTF-8 bytes of
      the text.  Every needle the script searches for is plain ASCII, and
      an ASCII byte never occurs inside a multi-byte UTF-8 sequence, so
      matching on bytes and matching on code points agree.
    - The disk is a finite map from the paths of regular files to their
      text, as [f.read()] returns it and [f.write(content)] takes it in
      text mode; the bytes below (UTF-8 encoding, line ends) are not
      modelled.  Standard output and the file accesses are recorded in
      an event log.  I/O failures (permissions, decoding, a directory at
      a path) abort the script and are outside the model.
    - The closures [link_class] and [icon_class] of [get_sidebar] capture
      [active_page]; here they take it as their first argument. *)

From Stdlib Require Import Ascii.
From stdpp Require Import base strings list gmap.

Local Open Scope bool_scope.

(** ** Text *)

(** The markup below is full of double quotes.  It is written with an
    apostrophe wherever the script has a double quote (the script's
    literals contain no apostrophe), and [dq] puts the double quotes
    back. *)
Definition dquote : ascii := Ascii.ascii_of_nat 34.
Definition apostrophe : ascii := Ascii.ascii_of_nat 39.

Fixpoint dq (s : string) : string :=
  match s with
  | EmptyString => EmptyString
  | String c s' =>
      String (if Ascii.eqb c apostrophe then dquote else c) (dq s')
  end.

(** ** The fragment builder *)

(** [files]: the dict of the script, in insertion order. *)
Definition design_dir : string := ".designs".

Definition files : list (string * string) :=
  [ ("dashboard.html", "Dashboard");
    ("participants.html", "Participants");
    ("reports.html", "Reports & Docs");
    ("ai.html", "AI Assistant");
    ("toolkit.html", "Toolkit");
    ("ndisplans.html", "NDIS Plans");
    ("general.html", "General");
    ("profile.html", "Profile") ].

Definition link_base : string :=
  "flex items-center gap-3 px-2 py-2.5 rounded-DEFAULT transition-colors group".
Definition link_active : string := " bg-primary/10 text-primary".
Definition link_hover : string :=
  " text-text-sub-light dark:text-text-sub-dark hover:bg-gray-50 dark:hover:bg-slate-700/50 hover:text-gray-900 dark:hover:text-white".

Definition icon_base : string :=
  "material-icons-round text-[20px] transition-colors".
Definition icon_hover : string := " group-hover:text-primary".

Definition link_class (active_page page_name : string) : string :=
  let base := link_base in
  if String.eqb page_name active_page
  then base +:+ link_active
  else base +:+ link_hover.

Definition icon_class (active_page page_name : string) : string :=
  let base := icon_base in
  if String.eqb page_name active_page
  then base
  else base +:+ icon_hover.

Definition get_sidebar (active_page : string) : string :=
  let link_class := link_class active_page in
  let icon_class := icon_class active_page in
  String.concat "" [
    dq "<aside class='w-64 bg-surface-light dark:bg-surface-dark border-r border-border-light dark:border-border-dark flex flex-col h-full flex-shrink-0 z-20'>
    <div class='h-16 flex items-center px-6 border-b border-border-light dark:border-border-dark lg:border-none'>
        <div class='flex items-center gap-2'>
            <div class='w-8 h-8 rounded-lg bg-primary flex items-center justify-center text-white'>
                <span class='material-icons-round text-xl'>all_inclusive</span>
            </div>
            <span class='text-lg font-bold text-gray-900 dark:text-white tracking-tight'>Quantum</span>
        </div>
    </div>
    <div class='px-5 mt-4 mb-2'>
        <div class='relative'>
            <span class='absolute inset-y-0 left-0 pl-3 flex items-center pointer-events-none'>
                <span class='material-icons-round text-gray-400 text-sm'>search</span>
            </span>
            <input class='w-full bg-gray-50 dark:bg-slate-700/50 border-none rounded-lg py-2 pl-9 pr-3 text-sm text-gray-700 dark:text-gray-200 focus:ring-1 focus:ring-primary placeholder-gray-400 dark:placeholder-slate-500' placeholder='Search data...' type='text'/>
            <div class='absolute inset-y-0 right-0 pr-2 flex items-center pointer-events-none'>
                <span class='text-gray-400 text-xs border border-gray-200 dark:border-gray-600 rounded px-1.5 py-0.5'>⌘K</span>
            </div>
        </div>
    </div>
    <nav class='flex-1 overflow-y-auto px-4 py-4 space-y-6'>
        <div>
            <h3 class='px-2 text-xs font-semibold text-text-sub-light dark:text-text-sub-dark uppercase tracking-wider mb-2'>Clinical Workflow</h3>
            <ul class='space-y-1'>
                <li>
                    <a class='";
    link_class "Dashboard";
    dq "' href='dashboard.html'>
                        <span class='";
    icon_class "Dashboard";
    dq "'>dashboard</span>
                        <span class='font-medium text-sm'>Dashboard</span>
                    </a>
                </li>
                <li>
                    <a class='";
    link_class "Participants";
    dq "' href='participants.html'>
                        <span class='";
    icon_class "Participants";
    dq "'>people</span>
                        <span class='font-medium text-sm'>Participants</span>
                    </a>
                </li>
                <li>
                    <a class='";
    link_class "Reports & Docs";
    dq "' href='reports.html'>
                        <span class='";
    icon_class "Reports & Docs";
    dq "'>assignment</span>
                        <span class='font-medium text-sm'>Reports & Docs</span>
                    </a>
                </li>
                <li>
                    <a class='";
    link_class "AI Assistant";
    dq "' href='ai.html'>
                        <span class='";
    icon_class "AI Assistant";
    dq "'>psychology</span>
                        <span class='font-medium text-sm'>AI Assistant</span>
                        <span class='ml-auto bg-indigo-100 dark:bg-indigo-900/40 text-primary text-[10px] font-bold px-1.5 py-0.5 rounded'>NEW</span>
                    </a>
                </li>
                <li>
                    <a class='";
    link_class "Toolkit";
    dq "' href='toolkit.html'>
                        <span class='";
    icon_class "Toolkit";
    dq "'>construction</span>
                        <span class='font-medium text-sm'>Toolkit</span>
                    </a>
                </li>
            </ul>
        </div>
        <div>
            <h3 class='px-2 text-xs font-semibold text-text-sub-light dark:text-text-sub-dark uppercase tracking-wider mb-2'>Compliance</h3>
            <ul class='space-y-1'>
                <li>
                    <a class='";
    link_class "Audits";
    dq "' href='#'>
                        <span class='";
    icon_class "Audits";
    dq "'>verified_user</span>
                        <span class='font-medium text-sm'>Audits</span>
                    </a>
                </li>
                <li>
                    <a class='";
    link_class "NDIS Plans";
    dq "' href='ndisplans.html'>
                        <span class='";
    icon_class "NDIS Plans";
    dq "'>history_edu</span>
                        <span class='font-medium text-sm'>NDIS Plans</span>
                    </a>
                </li>
            </ul>
        </div>
        <div>
            <h3 class='px-2 text-xs font-semibold text-text-sub-light dark:text-text-sub-dark uppercase tracking-wider mb-2'>Settings</h3>
            <ul class='space-y-1'>
                <li>
                    <a class='";
    link_class "General";
    dq "' href='general.html'>
                        <span class='";
    icon_class "General";
    dq "'>settings</span>
                        <span class='font-medium text-sm'>General</span>
                    </a>
                </li>
                <li>
                    <a class='";
    link_class "Help Center";
    dq "' href='#'>
                        <span class='";
    icon_class "Help Center";
    dq "'>help_outline</span>
                        <span class='font-medium text-sm'>Help Center</span>
                    </a>
                </li>
            </ul>
        </div>
    </nav>
    <div class='p-4 border-t border-border-light dark:border-border-dark'>
        <a href='profile.html' class='flex items-center gap-3 w-full hover:bg-gray-50 dark:hover:bg-slate-700/50 p-2 rounded-lg transition-colors'>
            <img alt='User avatar' class='w-8 h-8 rounded-full border border-gray-200 dark:border-gray-600' src='https://lh3.googleusercontent.com/aida-public/AB6AXuC3PRJomuYWo10PIj-wZ4oATztLJHU09M0yzJNrEj9PExcDf5irhFSknCmiKVhIpHuE4326mJFaMwoiucPKgNbVWJYxfzdkmyA-t4lIl6dIWQMk6zReuWABMGjJb68EgIVNIwi_wIUQVkBLhK3I9Gt-mQSt3N1NR1couViFXGZXp6c9r1JSV1qz03QqNMe4LrKh9goVNRi7QBvro3HK6SDVnBkcQwmT3-bgiNqy6TS7PRK8rgX7QlIiZMYr0io3FhCbpUqj8sqRCIs'/>
            <div class='text-left'>
                <p class='text-sm font-medium text-gray-900 dark:text-white'>Sarah Chen</p>
                <p class='text-xs text-text-sub-light dark:text-text-sub-dark'>Senior OT</p>
            </div>
        </a>
    </div>
</aside>"
  ].

Global Arguments get_sidebar : simpl never.

(** ** String primitives of the script *)

(** [strip_prefix n s] is [Some r] exactly when [s = n +:+ r]. *)
Fixpoint strip_prefix (n s : string) : option string :=
  match n with
  | EmptyString => Some s
  | String a n' =>
      match s with
      | EmptyString => None
      | String b s' => if Ascii.eqb a b then strip_prefix n' s' else None
      end
  end.

Definition starts_with (n s : string) : bool :=
  match strip_prefix n s with Some _ => true | None => false end.

(** Python's [needle in s]. *)
Fixpoint contains (needle s : string) : bool :=
  starts_with needle s ||
  match s with
  | EmptyString => false
  | String _ s' => contains needle s'
  end.

(** Python's [s.replace(old, new)]: the occurrences of [old] are found
    from left to right and do not overlap.  After an occurrence the scan
    resumes behind it, so the recursion is on a fuel bound, [S (length s)]
    being enough for every [s]. *)
Fixpoint replace_go (fuel : nat) (old new s : string) : string :=
  match fuel with
  | 0 => s
  | S fuel' =>
      match strip_prefix old s with
      | Some rest => new +:+ replace_go fuel' old new rest
      | None =>
          match s with
          | EmptyString => EmptyString
          | String c s' => String c (replace_go fuel' old new s')
          end
      end
  end.

(** With an empty [old], Python puts [new] before every character and at
    the end. *)
Fixpoint interleave (new s : string) : string :=
  match s with
  | EmptyString => new
  | String c s' => new +:+ String c (interleave new s')
  end.

Definition str_replace (old new s : string) : string :=
  match old with
  | EmptyString => interleave new s
  | String _ _ => replace_go (S (String.length s)) old new s
  end.

(** ** The regular expression *)

(** The fragment of [re] syntax the script uses: literal characters and
    the lazy [.*?], which under [re.DOTALL] steps over any character. *)
Inductive re_item : Type :=
  | Chr (c : ascii)
  | AnyLazy.

Definition regex : Type := list re_item.

Fixpoint lits (s : string) : regex :=
  match s with
  | EmptyString => []
  | String c s' => Chr c :: lits s'
  end.

(** [match_here p s] runs the backtracking matcher at the start of [s] and
    returns the text left after the match that the matcher finds first:
    a lazy star first tries to stop, and takes one more character only when
    the rest of the pattern fails. *)
Fixpoint match_here (p : regex) : string → option string :=
  match p with
  | [] => fun s => Some s
  | Chr c :: p' => fun s =>
      match s with
      | EmptyString => None
      | String b s' => if Ascii.eqb c b then match_here p' s' else None
      end
  | AnyLazy :: p' =>
      fix lazy (s : string) : option string :=
        match match_here p' s with
        | Some rest => Some rest
        | None =>
            match s with
            | EmptyString => None
            | String _ s' => lazy s'
            end
        end
  end.

(** [pattern.search(s)]: the start positions are tried from left to right.
    The result is the text before the match and the text after it. *)
Fixpoint re_search (p : regex) (s : string) : option (string * string) :=
  match match_here p s with
  | Some rest => Some (EmptyString, rest)
  | None =>
      match s with
      | EmptyString => None
      | String c s' =>
          match re_search p s' with
          | Some (pre, rest) => Some (String c pre, rest)
          | None => None
          end
      end
  end.

(** [pattern.sub(repl, s, count=1)].  The replacement is spliced in as it
    is: [re] expands backslash escapes in [repl], and the fragment has no
    backslash (lemma [get_sidebar_no_backslash]). *)
Definition re_sub_first (p : regex) (repl s : string) : string :=
  match re_search p s with
  | Some (pre, rest) => pre +:+ repl +:+ rest
  | None => s
  end.

(** [re.compile(r'<aside.*?>.*?</aside>', re.DOTALL)] *)
Definition aside_pattern : regex :=
  lits "<aside" ++ AnyLazy :: lits ">" ++ AnyLazy :: lits "</aside>".

(** ** The loop over the pages *)

Definition nl : string := String (Ascii.ascii_of_nat 10) EmptyString.

Definition icon_link : string :=
  dq "<link href='https://fonts.googleapis.com/icon?family=Material+Icons+Round' rel='stylesheet'/>".
Definition icon_family : string := "family=Material+Icons+Round".
Definition head_close : string := "</head>".
(** [f'{icon_link}\n</head>'] *)
Definition head_with_link : string := icon_link +:+ nl +:+ head_close.

(** Step 1 of the loop body: the text after the sidebar replacement. *)
Definition update_sidebar (page_name content : string) : string :=
  let new_sidebar := get_sidebar page_name in
  let pattern := aside_pattern in
  match re_search pattern content with
  | Some _ => re_sub_first pattern new_sidebar content
  | None => content
  end.

(** Step 2 of the loop body: the text after the stylesheet check. *)
Definition ensure_icon_link (content : string) : string :=
  if negb (contains icon_family content)
  then str_replace head_close head_with_link content
  else content.

(** The text written back for a page: the two steps in a row. *)
Definition patch (page_name content : string) : string :=
  ensure_icon_link (update_sidebar page_name content).

(** [os.path.join(a, b)] of [posixpath]. *)
Fixpoint ends_with_slash (a : string) : bool :=
  match a with
  | EmptyString => false
  | String c EmptyString => Ascii.eqb c "/"
  | String _ a' => ends_with_slash a'
  end.

Definition path_join (a b : string) : string :=
  if starts_with "/" b then b
  else if String.eqb a "" || ends_with_slash a then a +:+ b
  else a +:+ "/" +:+ b.

(** What a run does to the outside: the lines printed, and the files
    opened for reading and for writing, oldest first. *)
Inductive event : Type :=
  | Printed (line : string)
  | FileRead (path : string)
  | FileWritten (path content : string).

Record world : Type := World {
  fs : gmap string string;
  log : list event
}.

Definition emit (e : event) (w : world) : world :=
  World (fs w) (log w ++ [e]).

Definition print (line : string) (w : world) : world :=
  emit (Printed line) w.

Definition write_file (path content : string) (w : world) : world :=
  World (<[path := content]> (fs w)) (log w ++ [FileWritten path content]).

(** The body of the [for] loop.  [os.path.exists] and the read look at the
    same disk, so one lookup stands for both.  The third step of the body
    tests the text for the Tailwind configuration and then does nothing
    ([pass]); it has no counterpart here. *)
Definition process_file (w : world) (entry : string * string) : world :=
  let '(filename, page_name) := entry in
  let filepath := path_join design_dir filename in
  match fs w !! filepath with
  | None => print ("Skipping " +:+ filename +:+ ", does not exist") w
  | Some content =>
      let w := emit (FileRead filepath) w in
      let new_sidebar := get_sidebar page_name in
      let pattern := aside_pattern in
      let '(content, w) :=
        match re_search pattern content with
        | Some _ =>
            (re_sub_first pattern new_sidebar content,
             print ("Updated sidebar in " +:+ filename) w)
        | None =>
            (content, print ("Warning: No aside tag found in " +:+ filename) w)
        end in
      let '(content, w) :=
        if negb (contains icon_family content)
        then (str_replace head_close head_with_link content,
              print ("Added Material Icons link to " +:+ filename) w)
        else (content, w) in
      write_file filepath content w
  end.

Definition run_over (entries : list (string * string)) (w : world) : world :=
  foldl process_file w entries.

Definition run (w : world) : world :=
  print "All files processed." (run_over files w).

Global Arguments run : simpl never.
Global Arguments run_over : simpl never.
Global Arguments patch : simpl never.

(** ** Notions used to state the properties *)

(** [split_first n s]: the text before the first occurrence of [n] in [s]
    and the text after it ([s.partition(n)]). *)
Fixpoint split_first (n s : string) : option (string * string) :=
  match strip_prefix n s with
  | Some rest => Some (EmptyString, rest)
  | None =>
      match s with
      | EmptyString => None
      | String c s' =>
          match split_first n s' with
          | Some (pre, rest) => Some (String c pre, rest)
          | None => None
          end
      end
  end.

Definition after (n s : string) : option string :=
  snd <$> split_first n s.

(** What the pattern asks for behind [<aside]: the first [>], and behind
    it the first [</aside>].  The result is the text after the match. *)
Definition after_open_tag (r : string) : option string :=
  after ">" r ≫= after "</aside>".

(** The number of positions of [s] at which [n] occurs. *)
Fixpoint occurrences (n s : string) : nat :=
  (if starts_with n s then 1 else 0) +
  match s with
  | EmptyString => 0
  | String _ s' => occurrences n s'
  end.

Fixpoint char_in (c : ascii) (s : string) : bool :=
  match s with
  | EmptyString => false
  | String b s' => Ascii.eqb c b || char_in c s'
  end.

Definition str_tail (s : string) : string :=
  match s with
  | EmptyString => EmptyString
  | String _ s' => s'
  end.

Fixpoint str_init (s : string) : string :=
  match s with
  | EmptyString => EmptyString
  | String _ EmptyString => EmptyString
  | String c s' => String c (str_init s')
  end.

Fixpoint last_char (s : string) : option ascii :=
  match s with
  | EmptyString => None
  | String c EmptyString => Some c
  | String _ s' => last_char s'
  end.

(** An occurrence of [n] that starts inside [a] ends inside [a]: no
    occurrence straddles the cut between [a] and [b]. *)
Definition clean_split (n a b : string) : Prop :=
  ∀ a1 a2, a = a1 +:+ a2 → a2 ≠ "" →
    starts_with n (a2 +:+ b) = true → starts_with n a2 = true.

(** The language of a pattern: the texts it can match. *)
Fixpoint lang (p : regex) (m : string) : Prop :=
  match p with
  | [] => m = EmptyString
  | Chr c :: p' => ∃ m', m = String c m' ∧ lang p' m'
  | AnyLazy :: p' => ∃ x m', m = x +:+ m' ∧ lang p' m'
  end.

(** The stylesheet step on a piece of a text, [present] telling whether
    the whole text names the icon family. *)
Definition add_links (present : bool) (t : string) : string :=
  if present then t else str_replace head_close head_with_link t.

Definition backslash : ascii := Ascii.ascii_of_nat 92.

(** The path of an entry of [files], and what the loop body does for it
    on a given disk: the events of one iteration. *)
Definition entry_path (entry : string * string) : string :=
  path_join design_dir entry.1.

Definition sidebar_notice (filename content : string) : string :=
  match re_search aside_pattern content with
  | Some _ => "Updated sidebar in " +:+ filename
  | None => "Warning: No aside tag found in " +:+ filename
  end.

Definition entry_events (disk : gmap string string)
    (entry : string * string) : list event :=
  match disk !! entry_path entry with
  | None => [Printed ("Skipping " +:+ entry.1 +:+ ", does not exist")]
  | Some content =>
      [FileRead (entry_path entry);
       Printed (sidebar_notice entry.1 content)] ++
      (if contains icon_family (update_sidebar entry.2 content) then []
       else [Printed ("Added Material Icons link to " +:+ entry.1)]) ++
      [FileWritten (entry_path entry) (patch entry.2 content)]
  end.

(** The texts written to a path, oldest first, and whether an event is an
    access to the path. *)
Definition written (path : string) (evs : list event) : list string :=
  omap (λ e, match e with
             | FileWritten p c => if decide (p = path) then Some c else None
             | _ => None
             end) evs.

Definition touches (path : string) (e : event) : bool :=
  match e with
  | Printed _ => false
  | FileRead p => bool_decide (p = path)
  | FileWritten p _ => bool_decide (p = path)
  end.

(** The labels the template passes to [link_class] and [icon_class], with
    the target and the icon of each link, in the order of the markup. *)
Definition nav_links : list (string * string * string) :=
  [ ("Dashboard", "dashboard.html", "dashboard");
    ("Participants", "participants.html", "people");
    ("Reports & Docs", "reports.html", "assignment");
    ("AI Assistant", "ai.html", "psychology");
    ("Toolkit", "toolkit.html", "construction");
    ("Audits", "#", "verified_user");
    ("NDIS Plans", "ndisplans.html", "history_edu");
    ("General", "general.html", "settings");
    ("Help Center", "#", "help_outline") ].

Definition nav_labels : list string := map (λ l, l.1.1) nav_links.

(** The label that decides the styles of a fragment: a label that no link
    has gives the fragment of the empty label. *)
Definition canon_page (a : string) : string :=
  if decide (a ∈ nav_labels) then a else "".

(** The markup of one nav link with the given two style strings. *)
Definition nav_link_markup (link_style icon_style : string)
    (l : string * string * string) : string :=
  let '(label, href, icon) := l in
  String.concat "" [
    dq "<a class='"; link_style; dq "' href='"; href; dq "'>
                        <span class='"; icon_style; dq "'>"; icon; dq "</span>
                        <span class='font-medium text-sm'>"; label; "</span>" ].

(** How many links carry a given style pair. *)
Definition link_attr (style : string) : string :=
  dq "<a class='" +:+ style +:+ dq "'".
Definition icon_attr (style : string) : string :=
  dq "<span class='" +:+ style +:+ dq "'".

Definition active_links (frag : string) : nat :=
  occurrences (link_attr (link_base +:+ link_active)) frag.
Definition hover_links (frag : string) : nat :=
  occurrences (link_attr (link_base +:+ link_hover)) frag.
Definition active_icons (frag : string) : nat :=
  occurrences (icon_attr icon_base) frag.
Definition hover_icons (frag : string) : nat :=
  occurrences (icon_attr (icon_base +:+ icon_hover)) frag.

(** Documents used as examples. *)
Definition old_page : string := dq "<aside class='old'>OLD CONTENT</aside>".

Definition nested_page : string :=
  dq "<body><aside class='nav'>menu<aside>tip</aside>more</aside></body>".

Definition plain_page : string := "<html><body>no sidebar here</body></html>".

(** * Properties *)

(** ** The definitions at work *)

Example str_replace_all :
  str_replace "</head>" "X</head>" "a</head>b</head></head>"
  = "aX</head>bX</head>X</head>".
Proof. reflexivity. Qed.

Example str_replace_no_overlap : str_replace "aa" "b" "aaaaa" = "bba".
Proof. reflexivity. Qed.

Example str_replace_empty_old : str_replace "" "-" "abc" = "-a-b-c-".
Proof. reflexivity. Qed.

Example re_search_old_page : re_search aside_pattern old_page = Some ("", "").
Proof. reflexivity. Qed.

Example re_search_nested_page :
  re_search aside_pattern nested_page = Some ("<body>", "more</aside></body>").
Proof. reflexivity. Qed.

Example re_search_plain_page : re_search aside_pattern plain_page = None.
Proof. reflexivity. Qed.

(** The first [>] behind [<aside] may belong to a closing tag. *)
Example re_search_unclosed_tag :
  re_search aside_pattern "<aside</aside>x</aside>y" = Some ("", "y").
Proof. reflexivity. Qed.

Example path_join_design :
  path_join design_dir "dashboard.html" = ".designs/dashboard.html".
Proof. reflexivity. Qed.

Example run_log_single_page :
  log (run (World {[ ".designs/profile.html" := plain_page ]} []))
  = [ Printed "Skipping dashboard.html, does not exist";
      Printed "Skipping participants.html, does not exist";
      Printed "Skipping reports.html, does not exist";
      Printed "Skipping ai.html, does not exist";
      Printed "Skipping toolkit.html, does not exist";
      Printed "Skipping ndisplans.html, does not exist";
      Printed "Skipping general.html, does not exist";
      FileRead ".designs/profile.html";
      Printed "Warning: No aside tag found in profile.html";
      Printed "Added Material Icons link to profile.html";
      FileWritten ".designs/profile.html" plain_page;
      Printed "All files processed." ].
Proof. vm_compute. reflexivity. Qed.

(** ** Strings *)

Section strings.
Implicit Types (a b c d n s r : string) (x y : ascii).

Lemma str_app_nil_l s : "" +:+ s = s.
Proof. reflexivity. Qed.

Lemma str_app_cons x a b : String x a +:+ b = String x (a +:+ b).
Proof. reflexivity. Qed.

Lemma str_app_nil_r s : s +:+ "" = s.
Proof.
  induction s as [|x s IH]; [done|]. by rewrite str_app_cons, IH.
Qed.

Lemma str_app_assoc a b c : (a +:+ b) +:+ c = a +:+ b +:+ c.
Proof.
  induction a as [|x a IH]; [done|]. by rewrite !str_app_cons, IH.
Qed.

Lemma str_length_app a b :
  String.length (a +:+ b) = String.length a + String.length b.
Proof.
  induction a as [|x a IH]; [done|]. rewrite str_app_cons. simpl. by rewrite IH.
Qed.

Lemma str_app_inv_head a b c : a +:+ b = a +:+ c → b = c.
Proof.
  induction a as [|x a IH]; [done|]. rewrite !str_app_cons. intros [= H]. auto.
Qed.

Lemma str_app_eq_nil a b : a +:+ b = "" → a = "" ∧ b = "".
Proof. destruct a; [done|]. by rewrite str_app_cons. Qed.

(** Two ways of cutting one text: one cut is inside a piece of the
    other. *)
Lemma str_app_eq_app a b c d :
  a +:+ b = c +:+ d →
  ∃ l, (c = a +:+ l ∧ b = l +:+ d) ∨ (a = c +:+ l ∧ d = l +:+ b).
Proof.
  revert c. induction a as [|x a IH]; intros c H.
  - exists c. left. by rewrite !str_app_nil_l in *.
  - destruct c as [|y c].
    + exists (String x a). right. by rewrite !str_app_nil_l in *.
    + rewrite !str_app_cons in H. injection H as -> H.
      destruct (IH _ H) as [l [[-> ->]|[-> ->]]]; exists l;
        [left|right]; by rewrite str_app_cons.
Qed.

Lemma ascii_eqb_refl x : Ascii.eqb x x = true.
Proof. by apply Ascii.eqb_eq. Qed.

(** *** Prefixes *)

Lemma strip_prefix_Some n s r : strip_prefix n s = Some r ↔ s = n +:+ r.
Proof.
  revert s. induction n as [|x n IH]; intros s; simpl.
  - rewrite str_app_nil_l. split; [by intros [= ->]|by intros ->].
  - rewrite str_app_cons. destruct s as [|y s]; [done|].
    destruct (Ascii.eqb_spec x y) as [->|Hne].
    + rewrite IH. split; [by intros ->|by intros [= ->]].
    + split; [done|]. intros [= -> _]. done.
Qed.

Lemma strip_prefix_app n r : strip_prefix n (n +:+ r) = Some r.
Proof. by apply strip_prefix_Some. Qed.

Lemma starts_with_true n s : starts_with n s = true ↔ ∃ r, s = n +:+ r.
Proof.
  unfold starts_with. destruct (strip_prefix n s) as [r|] eqn:E.
  - apply strip_prefix_Some in E. split; eauto.
  - split; [done|]. intros [r Hr]. apply strip_prefix_Some in Hr. congruence.
Qed.

Lemma starts_with_app n r : starts_with n (n +:+ r) = true.
Proof. apply starts_with_true. eauto. Qed.

Lemma starts_with_app_l n a b :
  starts_with n a = true → starts_with n (a +:+ b) = true.
Proof.
  rewrite !starts_with_true. intros [r ->]. exists (r +:+ b).
  by rewrite str_app_assoc.
Qed.

Lemma starts_with_false_None n s :
  starts_with n s = false ↔ strip_prefix n s = None.
Proof. unfold starts_with. by destruct (strip_prefix n s). Qed.

(** A prefix test that fails on a text at least as long as the needle
    fails on every extension of the text. *)
Lemma starts_with_app_long n a b :
  String.length n ≤ String.length a →
  starts_with n (a +:+ b) = starts_with n a.
Proof.
  intros Hlen. destruct (starts_with n a) eqn:E.
  - by apply starts_with_app_l.
  - apply not_true_is_false. intros [r Hr]%starts_with_true.
    apply str_app_eq_app in Hr as [l [[-> ->]|[-> ->]]].
    + rewrite str_length_app in Hlen.
      assert (l = "") as -> by (destruct l; [done|simpl in Hlen; lia]).
      rewrite str_app_nil_r in E.
      by rewrite (proj2 (starts_with_true a a)) in E
        by (exists ""; by rewrite str_app_nil_r).
    + by rewrite starts_with_app in E.
Qed.

(** *** Occurrences *)

Lemma contains_cons n x s :
  contains n (String x s) = starts_with n (String x s) || contains n s.
Proof. reflexivity. Qed.

Lemma contains_true n s :
  contains n s = true ↔ ∃ a b, s = a +:+ n +:+ b.
Proof.
  split.
  - induction s as [|x s IH]; simpl.
    + rewrite orb_false_r. intros [r ->]%starts_with_true. by exists "", r.
    + intros [H|H]%orb_true_iff.
      * apply starts_with_true in H as [r ->]. by exists "", r.
      * destruct (IH H) as (a & b & ->). by exists (String x a), b.
  - intros (a & b & ->). induction a as [|x a IH].
    + rewrite str_app_nil_l. destruct (n +:+ b) eqn:E; simpl; rewrite <- E;
        by rewrite starts_with_app.
    + rewrite str_app_cons, contains_cons, IH. apply orb_true_r.
Qed.

Lemma contains_app_r n a b : contains n b = true → contains n (a +:+ b) = true.
Proof.
  rewrite !contains_true. intros (u & v & ->). exists (a +:+ u), v.
  by rewrite str_app_assoc.
Qed.

Lemma contains_app_l n a b : contains n a = true → contains n (a +:+ b) = true.
Proof.
  rewrite !contains_true. intros (u & v & ->). exists u, (v +:+ b).
  by rewrite !str_app_assoc.
Qed.

Lemma contains_app_false n a b :
  contains n (a +:+ b) = false → contains n a = false ∧ contains n b = false.
Proof.
  intros H. split; apply not_true_is_false; intros H'.
  - by rewrite (contains_app_l _ _ _ H') in H.
  - by rewrite (contains_app_r _ _ _ H') in H.
Qed.

Lemma contains_self n b : contains n (n +:+ b) = true.
Proof. apply contains_true. by exists "", b. Qed.

Lemma clean_split_suffix n a1 a2 b :
  clean_split n (a1 +:+ a2) b → clean_split n a2 b.
Proof.
  intros H u v -> Hv. apply (H (a1 +:+ u) v); [|done]. by rewrite str_app_assoc.
Qed.

Lemma clean_split_tail n x a b :
  clean_split n (String x a) b → clean_split n a b.
Proof. apply (clean_split_suffix n (String x "") a b). Qed.

Lemma clean_split_starts n a b :
  clean_split n a b → a ≠ "" →
  starts_with n (a +:+ b) = starts_with n a.
Proof.
  intros H Ha. destruct (starts_with n (a +:+ b)) eqn:E.
  - symmetry. by apply (H "" a).
  - destruct (starts_with n a) eqn:E'; [|done].
    by rewrite (starts_with_app_l _ _ b E') in E.
Qed.

(** First criterion: [b] begins with a character that [n] has at most at
    its first position. *)
Lemma starts_with_app_hd n a x b :
  char_in x n = false →
  starts_with n (a +:+ String x b) = true → starts_with n a = true.
Proof.
  rewrite !starts_with_true.
  revert a. induction n as [|y n IH]; intros a Hx [r Hr].
  - by exists a.
  - simpl in Hx. apply orb_false_iff in Hx as [Hxy Hx].
    rewrite str_app_cons in Hr. destruct a as [|z a].
    + rewrite str_app_nil_l in Hr. injection Hr as -> _.
      by rewrite ascii_eqb_refl in Hxy.
    + rewrite str_app_cons in Hr. injection Hr as -> Hr.
      destruct (IH a Hx) as [r' ->]; [by eauto|]. exists r'.
      by rewrite str_app_cons.
Qed.

Lemma clean_split_hd n a x b :
  char_in x (str_tail n) = false → clean_split n a (String x b).
Proof.
  intros Hx a1 a2 _ Ha2 H. destruct n as [|y n].
  { apply starts_with_true. by exists a2. }
  destruct a2 as [|z a2]; [done|]. simpl in Hx.
  apply starts_with_true in H as [r Hr]. rewrite !str_app_cons in Hr.
  injection Hr as -> Hr.
  assert (starts_with n a2 = true) as [r' ->]%starts_with_true.
  { apply (starts_with_app_hd n a2 x b Hx), starts_with_true. eauto. }
  apply starts_with_true. exists r'. by rewrite str_app_cons.
Qed.

(** Second criterion: [a] ends with a character that [n] has at most at
    its last position. *)
Lemma str_init_cons y n :
  n ≠ "" → str_init (String y n) = String y (str_init n).
Proof. by destruct n. Qed.

Lemma starts_with_app_last n a x b :
  char_in x (str_init n) = false →
  starts_with n (a +:+ String x b) = true →
  starts_with n (a +:+ String x "") = true.
Proof.
  rewrite !starts_with_true.
  revert a. induction n as [|y n IH]; intros a Hx [r Hr].
  - by eexists.
  - rewrite str_app_cons in Hr. destruct a as [|z a].
    + rewrite str_app_nil_l in Hr. injection Hr as -> Hr.
      destruct n as [|z n]; [by exists ""|].
      simpl in Hx. by rewrite ascii_eqb_refl in Hx.
    + rewrite str_app_cons in Hr. injection Hr as -> Hr.
      destruct n as [|y' n].
      { eexists. by rewrite !str_app_cons, str_app_nil_l. }
      rewrite str_init_cons in Hx by done. simpl in Hx.
      apply orb_false_iff in Hx as [_ Hx].
      destruct (IH a) as [r' Hr']; [done|by eauto|].
      exists r'. by rewrite !str_app_cons, Hr'.
Qed.

Lemma clean_split_last n a x b :
  char_in x (str_init n) = false → clean_split n (a +:+ String x "") b.
Proof.
  intros Hx a1 a2 Ha Ha2 H.
  assert (∃ a2', a2 = a2' +:+ String x "") as [a2' ->].
  { apply str_app_eq_app in Ha as [l [[-> Hl]|[-> Hl]]].
    - destruct l as [|z l].
      + rewrite str_app_nil_l in Hl. subst a2. by exists "".
      + rewrite str_app_cons in Hl. injection Hl as -> Hl.
        symmetry in Hl. by apply str_app_eq_nil in Hl as [_ ->].
    - by exists l. }
  rewrite str_app_assoc, str_app_cons, str_app_nil_l in H.
  by apply starts_with_app_last in H.
Qed.

Lemma contains_nil_l s : contains "" s = true.
Proof. by destruct s. Qed.

Lemma contains_app_clean n a b :
  clean_split n a b →
  contains n (a +:+ b) = contains n a || contains n b.
Proof.
  intros H. induction a as [|x a IH].
  - rewrite str_app_nil_l. destruct n as [|y n].
    + by rewrite !contains_nil_l.
    + done.
  - rewrite str_app_cons, !contains_cons, <- str_app_cons.
    rewrite clean_split_starts by done. rewrite IH, orb_assoc; [done|].
    by eapply clean_split_tail.
Qed.

(** *** The first occurrence *)

Lemma split_first_cons n x s :
  split_first n (String x s) =
  match strip_prefix n (String x s) with
  | Some rest => Some ("", rest)
  | None =>
      match split_first n s with
      | Some (pre, rest) => Some (String x pre, rest)
      | None => None
      end
  end.
Proof. reflexivity. Qed.

Lemma split_first_nil n :
  split_first n "" =
  match strip_prefix n "" with Some rest => Some ("", rest) | None => None end.
Proof. reflexivity. Qed.

Lemma split_first_Some n s pre r :
  split_first n s = Some (pre, r) → s = pre +:+ n +:+ r.
Proof.
  revert pre. induction s as [|x s IH]; intros pre.
  - rewrite split_first_nil. destruct (strip_prefix _ _) eqn:E; [|done].
    intros [= <- <-]. by apply strip_prefix_Some in E.
  - rewrite split_first_cons. destruct (strip_prefix _ _) eqn:E.
    + intros [= <- <-]. by apply strip_prefix_Some in E.
    + destruct (split_first n s) as [[p r']|]; [|done].
      intros [= <- <-]. by rewrite str_app_cons, <- IH.
Qed.

Lemma split_first_None n s :
  split_first n s = None ↔ contains n s = false.
Proof.
  induction s as [|x s IH].
  - rewrite split_first_nil. simpl. rewrite orb_false_r. unfold starts_with.
    by destruct (strip_prefix n "").
  - rewrite split_first_cons, contains_cons. unfold starts_with.
    destruct (strip_prefix n (String x s)); [done|]. simpl.
    rewrite <- IH. by destruct (split_first n s) as [[? ?]|].
Qed.

Lemma split_first_intro n pre r :
  contains n pre = false → clean_split n pre (n +:+ r) →
  split_first n (pre +:+ n +:+ r) = Some (pre, r).
Proof.
  induction pre as [|x pre IH]; intros Hpre Hclean.
  - rewrite str_app_nil_l. destruct (n +:+ r) eqn:E.
    + rewrite split_first_nil, <- E. by rewrite strip_prefix_app.
    + rewrite split_first_cons, <- E. by rewrite strip_prefix_app.
  - rewrite str_app_cons, split_first_cons, <- str_app_cons.
    rewrite contains_cons in Hpre. apply orb_false_iff in Hpre as [H1 H2].
    assert (strip_prefix n (String x pre +:+ n +:+ r) = None) as ->.
    { apply starts_with_false_None. by rewrite clean_split_starts. }
    rewrite IH; [done|done|]. by eapply clean_split_tail.
Qed.

Lemma split_first_app_l n a b p r :
  split_first n a = Some (p, r) →
  split_first n (a +:+ b) = Some (p, r +:+ b).
Proof.
  revert p. induction a as [|x a IH]; intros p.
  - rewrite split_first_nil. destruct (strip_prefix n "") eqn:E; [|done].
    intros [= <- <-]. apply strip_prefix_Some in E. symmetry in E.
    apply str_app_eq_nil in E as [-> ->]. rewrite !str_app_nil_l. by destruct b.
  - rewrite str_app_cons, !split_first_cons, <- str_app_cons.
    destruct (strip_prefix n (String x a)) eqn:E.
    + intros [= <- <-]. apply strip_prefix_Some in E. rewrite E, str_app_assoc.
      by rewrite strip_prefix_app.
    + destruct (split_first n a) as [[p' r']|] eqn:E'; [|done].
      intros [= <- <-]. rewrite (IH p') by done.
      assert (strip_prefix n (String x a +:+ b) = None) as ->; [|done].
      apply starts_with_false_None. rewrite starts_with_app_long.
      * by apply starts_with_false_None.
      * apply split_first_Some in E'. rewrite E'. simpl.
        rewrite !str_length_app. lia.
Qed.

Lemma after_Some n s r :
  after n s = Some r → ∃ pre, s = pre +:+ n +:+ r.
Proof.
  unfold after. destruct (split_first n s) as [[p r']|] eqn:E; [|done].
  intros [= <-]. exists p. by apply split_first_Some.
Qed.

Lemma after_None n s : after n s = None ↔ contains n s = false.
Proof.
  unfold after. rewrite <- split_first_None.
  by destruct (split_first n s) as [[? ?]|].
Qed.

Lemma after_cons n x s :
  after n (String x s) =
  match strip_prefix n (String x s) with
  | Some rest => Some rest
  | None => after n s
  end.
Proof.
  unfold after. rewrite split_first_cons.
  destruct (strip_prefix _ _); [done|].
  by destruct (split_first n s) as [[? ?]|].
Qed.

Lemma after_nil n : after n "" = strip_prefix n "".
Proof.
  unfold after. rewrite split_first_nil. by destruct (strip_prefix n "").
Qed.

Lemma after_app_l n a b r :
  after n a = Some r → after n (a +:+ b) = Some (r +:+ b).
Proof.
  unfold after. destruct (split_first n a) as [[p r']|] eqn:E; [|done].
  intros [= <-]. by rewrite (split_first_app_l _ _ _ _ _ E).
Qed.

Lemma after_intro n pre r :
  contains n pre = false → clean_split n pre (n +:+ r) →
  after n (pre +:+ n +:+ r) = Some r.
Proof. intros H1 H2. unfold after. by rewrite split_first_intro. Qed.

Lemma after_None_suffix n a b : after n (a +:+ b) = None → after n b = None.
Proof. rewrite !after_None. by intros [_ ?]%contains_app_false. Qed.

Lemma after_is_Some n a b : is_Some (after n (a +:+ n +:+ b)).
Proof.
  destruct (after n (a +:+ n +:+ b)) eqn:E; [by eexists|].
  apply after_None in E. by rewrite contains_app_r in E by apply contains_self.
Qed.

(** *** Replacement *)

Lemma strip_prefix_shorter n s r :
  strip_prefix n s = Some r → String.length s = String.length n + String.length r.
Proof. intros ->%strip_prefix_Some. by rewrite str_length_app. Qed.

Lemma replace_go_S f old new s :
  replace_go (S f) old new s =
  match strip_prefix old s with
  | Some rest => new +:+ replace_go f old new rest
  | None =>
      match s with
      | EmptyString => EmptyString
      | String c s' => String c (replace_go f old new s')
      end
  end.
Proof. reflexivity. Qed.

Lemma replace_go_fuel f f' y old new s :
  String.length s < f → String.length s < f' →
  replace_go f (String y old) new s = replace_go f' (String y old) new s.
Proof.
  revert f' s. induction f as [|f IH]; intros f' s Hf Hf'; [lia|].
  destruct f' as [|f']; [lia|]. cbn [replace_go].
  destruct (strip_prefix (String y old) s) as [r|] eqn:E.
  - apply strip_prefix_shorter in E. simpl in E.
    rewrite (IH f' r) by lia. done.
  - destruct s as [|x s]; [done|]. simpl in Hf, Hf'.
    rewrite (IH f' s) by lia. done.
Qed.

Lemma str_replace_unfold y old new s :
  str_replace (String y old) new s =
  match strip_prefix (String y old) s with
  | Some rest => new +:+ str_replace (String y old) new rest
  | None =>
      match s with
      | EmptyString => EmptyString
      | String x s' => String x (str_replace (String y old) new s')
      end
  end.
Proof.
  unfold str_replace. rewrite replace_go_S.
  destruct (strip_prefix (String y old) s) as [r|] eqn:E.
  - apply strip_prefix_shorter in E. simpl in E. f_equal.
    apply replace_go_fuel; lia.
  - by destruct s.
Qed.

Lemma str_replace_absent old new s :
  old ≠ "" → contains old s = false → str_replace old new s = s.
Proof.
  destruct old as [|y old]; [done|]. intros _.
  induction s as [|x s IH]; intros H; rewrite str_replace_unfold.
  - done.
  - rewrite contains_cons in H. apply orb_false_iff in H as [H1 H2].
    apply starts_with_false_None in H1 as ->. by rewrite IH.
Qed.

Lemma str_replace_app_clean old new a b :
  old ≠ "" → clean_split old a b →
  str_replace old new (a +:+ b)
  = str_replace old new a +:+ str_replace old new b.
Proof.
  destruct old as [|y old]; [done|]. intros _.
  remember (String.length a) as k eqn:Hk. revert a Hk.
  induction k as [k IH] using lt_wf_ind. intros a Hk Hclean.
  destruct a as [|x a].
  { rewrite str_app_nil_l. rewrite (str_replace_unfold _ _ _ ""). done. }
  rewrite (str_replace_unfold _ _ _ (String x a +:+ b)).
  rewrite (str_replace_unfold _ _ _ (String x a)).
  destruct (strip_prefix (String y old) (String x a)) as [r|] eqn:E.
  - pose proof E as E'. apply strip_prefix_Some in E'.
    rewrite E', str_app_assoc, strip_prefix_app, str_app_assoc. f_equal.
    apply (IH (String.length r)); [|done|].
    + apply strip_prefix_shorter in E. simpl in *. lia.
    + rewrite E' in Hclean. by apply clean_split_suffix in Hclean.
  - assert (strip_prefix (String y old) (String x a +:+ b) = None) as ->.
    { apply starts_with_false_None. rewrite clean_split_starts by done.
      by apply starts_with_false_None. }
    rewrite !str_app_cons. cbv beta iota. f_equal.
    apply (IH (String.length a)); [|done|].
    + simpl in Hk. lia.
    + by eapply clean_split_tail.
Qed.

(** An occurrence of [old] preceded by text without one. *)
Lemma str_replace_first old new u v :
  old ≠ "" → contains old u = false → clean_split old u (old +:+ v) →
  str_replace old new (u +:+ old +:+ v) = u +:+ new +:+ str_replace old new v.
Proof.
  intros Hold Hu Hclean. rewrite str_replace_app_clean by done.
  rewrite (str_replace_absent old new u) by done. f_equal.
  destruct old as [|y old]; [done|].
  by rewrite str_replace_unfold, strip_prefix_app.
Qed.

Lemma split_first_min n s pre r a b :
  split_first n s = Some (pre, r) → s = a +:+ n +:+ b → ∃ d, a = pre +:+ d.
Proof.
  revert pre a. induction s as [|x s IH]; intros pre a.
  - rewrite split_first_nil. destruct (strip_prefix n "") eqn:E; [|done].
    intros [= <- <-] _. by exists a.
  - rewrite split_first_cons.
    destruct (strip_prefix n (String x s)) eqn:E.
    { intros [= <- <-] _. by exists a. }
    destruct (split_first n s) as [[p r']|] eqn:E'; [|done].
    intros [= <- <-] Hs. destruct a as [|z a].
    + rewrite str_app_nil_l in Hs. rewrite Hs, strip_prefix_app in E. done.
    + rewrite str_app_cons in Hs. injection Hs as <- Hs.
      destruct (IH p a eq_refl Hs) as [d ->]. exists d. by rewrite str_app_cons.
Qed.

Lemma str_app_length_eq_l a b : a = a +:+ b → b = "".
Proof.
  intros H. apply (f_equal String.length) in H. rewrite str_length_app in H.
  destruct b; [done|]. simpl in H. lia.
Qed.

(** No occurrence starts before the first one. *)
Lemma split_first_no_earlier n s pre r a1 a2 :
  split_first n s = Some (pre, r) → pre = a1 +:+ a2 → a2 ≠ "" →
  starts_with n (a2 +:+ n +:+ r) = false.
Proof.
  intros Hs -> Ha2. apply not_true_is_false. intros [r' Hr']%starts_with_true.
  pose proof (split_first_Some _ _ _ _ Hs) as Heq.
  rewrite str_app_assoc, Hr' in Heq.
  destruct (split_first_min _ _ _ _ _ _ Hs Heq) as [d Hd].
  rewrite str_app_assoc in Hd. apply str_app_length_eq_l in Hd.
  by apply str_app_eq_nil in Hd as [-> _].
Qed.

Lemma split_first_clean n s pre r :
  split_first n s = Some (pre, r) → clean_split n pre (n +:+ r).
Proof.
  intros Hs a1 a2 Hpre Ha2 H.
  by rewrite (split_first_no_earlier _ _ _ _ _ _ Hs Hpre Ha2) in H.
Qed.

Lemma split_first_pre_absent n s pre r :
  n ≠ "" → split_first n s = Some (pre, r) → contains n pre = false.
Proof.
  intros Hn Hs. apply not_true_is_false. intros (a & b & ->)%contains_true.
  pose proof (split_first_Some _ _ _ _ Hs) as Heq. rewrite !str_app_assoc in Heq.
  destruct (split_first_min _ _ _ _ _ _ Hs Heq) as [d Hd].
  rewrite !str_app_assoc in Hd. apply str_app_length_eq_l in Hd.
  by apply str_app_eq_nil in Hd as [-> _].
Qed.

(** The text after the first occurrence holds the text after any
    occurrence. *)
Lemma after_min n s r a b :
  after n s = Some r → s = a +:+ n +:+ b → ∃ d, r = d +:+ b.
Proof.
  unfold after. destruct (split_first n s) as [[p r']|] eqn:E; [|done].
  intros [= <-] Hs. destruct (split_first_min _ _ _ _ _ _ E Hs) as [d ->].
  apply split_first_Some in E. rewrite Hs, str_app_assoc in E.
  apply str_app_inv_head in E. rewrite <- str_app_assoc in E.
  apply str_app_eq_app in E as [l [[Hl ->]|[_ ->]]]; [|by exists l].
  apply (f_equal String.length) in Hl. rewrite !str_length_app in Hl.
  assert (l = "") as -> by (destruct l; [done|simpl in Hl; lia]).
  by exists "".
Qed.

(** Replacement, by induction on the occurrences of [old]. *)
Lemma str_replace_ind (P : string → string → Prop) old new :
  old ≠ "" →
  (∀ s, contains old s = false → P s s) →
  (∀ u v, contains old u = false → clean_split old u (old +:+ v) →
     P v (str_replace old new v) →
     P (u +:+ old +:+ v) (u +:+ new +:+ str_replace old new v)) →
  ∀ s, P s (str_replace old new s).
Proof.
  intros Hold Hnone Hsome s.
  remember (String.length s) as k eqn:Hk. revert s Hk.
  induction k as [k IH] using lt_wf_ind. intros s Hk.
  destruct (split_first old s) as [[u v]|] eqn:E.
  - pose proof (split_first_Some _ _ _ _ E) as ->.
    pose proof (split_first_pre_absent _ _ _ _ Hold E) as Hu.
    pose proof (split_first_clean _ _ _ _ E) as Hclean.
    rewrite str_replace_first by done. apply Hsome; [done..|].
    apply (IH (String.length v)); [|done].
    rewrite Hk, !str_length_app. destruct old; [done|simpl; lia].
  - apply split_first_None in E. rewrite str_replace_absent by done. auto.
Qed.
End strings.

(** ** The matcher *)

Section matcher.
Implicit Types (p : regex) (s r m n : string).

Lemma match_here_chr c p s :
  match_here (Chr c :: p) s =
  match s with
  | EmptyString => None
  | String b s' => if Ascii.eqb c b then match_here p s' else None
  end.
Proof. reflexivity. Qed.

Lemma match_here_lazy p s :
  match_here (AnyLazy :: p) s =
  match match_here p s with
  | Some rest => Some rest
  | None =>
      match s with
      | EmptyString => None
      | String _ s' => match_here (AnyLazy :: p) s'
      end
  end.
Proof. by destruct s. Qed.

Lemma match_here_lits n p s :
  match_here (lits n ++ p) s = strip_prefix n s ≫= match_here p.
Proof.
  revert s. induction n as [|c n IH]; intros s; [done|].
  simpl. destruct s as [|b s]; [done|]. by destruct (Ascii.eqb c b).
Qed.

Local Arguments match_here : simpl never.

Lemma match_here_lits_only n s : match_here (lits n) s = strip_prefix n s.
Proof.
  rewrite <- (app_nil_r (lits n)), match_here_lits.
  by destruct (strip_prefix n s).
Qed.

Lemma match_here_lazy_lits n s : match_here (AnyLazy :: lits n) s = after n s.
Proof.
  induction s as [|b s IH]; rewrite match_here_lazy, match_here_lits_only.
  - rewrite after_nil. by destruct (strip_prefix n "").
  - rewrite after_cons. by destruct (strip_prefix n (String b s)).
Qed.

(** Two lazy stars in a row: what the first one skips is settled by the
    first occurrence of the character behind it, because a later
    occurrence leaves less text for the rest of the pattern. *)
Lemma match_here_lazy_chr_lazy_lits c n s :
  match_here (AnyLazy :: Chr c :: AnyLazy :: lits n) s
  = after (String c "") s ≫= after n.
Proof.
  induction s as [|b s IH]; rewrite match_here_lazy, match_here_chr; [done|].
  rewrite after_cons. simpl strip_prefix.
  destruct (Ascii.eqb c b).
  - rewrite match_here_lazy_lits. simpl.
    destruct (after n s) eqn:E; [done|]. rewrite IH.
    destruct (after (String c "") s) as [t|] eqn:E'; [|done]. simpl.
    apply after_Some in E' as [pre ->].
    by apply after_None_suffix, after_None_suffix in E.
  - done.
Qed.

Lemma match_here_aside s :
  match_here aside_pattern s = strip_prefix "<aside" s ≫= after_open_tag.
Proof.
  unfold aside_pattern. rewrite match_here_lits.
  destruct (strip_prefix "<aside" s) as [r|]; [|done].
  exact (match_here_lazy_chr_lazy_lits ">"%char "</aside>" r).
Qed.

(** The matcher against the language of the pattern. *)
Lemma match_here_sound p s r :
  match_here p s = Some r → ∃ m, s = m +:+ r ∧ lang p m.
Proof.
  revert s r. induction p as [|[c|] p IH]; intros s r.
  - intros [= ->]. by exists "".
  - rewrite match_here_chr. destruct s as [|b s]; [done|].
    destruct (Ascii.eqb_spec c b) as [->|]; [|done].
    intros (m & -> & Hm)%IH. exists (String b m). split; [done|].
    simpl. eauto.
  - induction s as [|b s IHs]; rewrite match_here_lazy.
    + destruct (match_here p "") eqn:E; [|done]. intros [= ->].
      apply IH in E as (m & -> & Hm). exists m. split; [done|].
      simpl. by exists "", m.
    + destruct (match_here p (String b s)) eqn:E.
      * intros [= ->]. apply IH in E as (m & -> & Hm). exists m.
        split; [done|]. simpl. by exists "", m.
      * intros (m & -> & x & m' & -> & Hm)%IHs.
        exists (String b (x +:+ m')). split; [done|].
        simpl. by exists (String b x), m'.
Qed.

Lemma match_here_complete p m r :
  lang p m → is_Some (match_here p (m +:+ r)).
Proof.
  revert m. induction p as [|[c|] p IH]; intros m; simpl lang.
  - intros ->. by eexists.
  - intros (m' & -> & Hm). rewrite str_app_cons, match_here_chr.
    rewrite ascii_eqb_refl. auto.
  - intros (x & m' & -> & Hm). rewrite str_app_assoc.
    induction x as [|b x IHx]; rewrite match_here_lazy.
    + rewrite str_app_nil_l. destruct (IH _ Hm) as [t ->]. by eexists.
    + destruct (match_here p _); [by eexists|]. by rewrite str_app_cons.
Qed.

(** *** Searching *)

Lemma re_search_unfold p s :
  re_search p s =
  match match_here p s with
  | Some rest => Some ("", rest)
  | None =>
      match s with
      | EmptyString => None
      | String c s' =>
          match re_search p s' with
          | Some (pre, rest) => Some (String c pre, rest)
          | None => None
          end
      end
  end.
Proof. by destruct s. Qed.

Lemma re_search_Some p s pre post :
  re_search p s = Some (pre, post) →
  ∃ t, s = pre +:+ t ∧ match_here p t = Some post ∧
    ∀ a1 a2, pre = a1 +:+ a2 → a2 ≠ "" → match_here p (a2 +:+ t) = None.
Proof.
  revert pre. induction s as [|c s IH]; intros pre; rewrite re_search_unfold.
  - destruct (match_here p "") eqn:E; [|done]. intros [= <- <-].
    exists "". split_and!; [done..|]. by intros a1 a2 [_ ->]%eq_sym%str_app_eq_nil.
  - destruct (match_here p (String c s)) eqn:E.
    { intros [= <- <-]. exists (String c s). split_and!; [done..|].
      by intros a1 a2 [_ ->]%eq_sym%str_app_eq_nil. }
    destruct (re_search p s) as [[pre' post']|]; [|done].
    intros [= <- <-]. destruct (IH pre' eq_refl) as (t & -> & Ht & Hearly).
    exists t. split_and!; [done..|]. intros a1 a2 Ha Ha2.
    destruct a1 as [|z a1].
    + rewrite str_app_nil_l in Ha. by subst a2.
    + rewrite str_app_cons in Ha. injection Ha as <- ->. by apply (Hearly a1 a2).
Qed.

Lemma re_search_None p s a t :
  re_search p s = None → s = a +:+ t → match_here p t = None.
Proof.
  revert a. induction s as [|c s IH]; intros a; rewrite re_search_unfold.
  - destruct (match_here p "") eqn:E; [done|].
    by intros _ [-> ->]%eq_sym%str_app_eq_nil.
  - destruct (match_here p (String c s)) eqn:E; [done|].
    destruct (re_search p s) as [[pre' post']|] eqn:E'; [done|].
    intros _ Hs. destruct a as [|z a].
    + rewrite str_app_nil_l in Hs. by subst t.
    + rewrite str_app_cons in Hs. injection Hs as <- ->. by apply (IH a).
Qed.

Lemma re_search_intro p pre t post :
  match_here p t = Some post →
  (∀ a1 a2, pre = a1 +:+ a2 → a2 ≠ "" → match_here p (a2 +:+ t) = None) →
  re_search p (pre +:+ t) = Some (pre, post).
Proof.
  intros Ht. induction pre as [|c pre IH]; intros Hearly.
  - rewrite str_app_nil_l, re_search_unfold. by rewrite Ht.
  - rewrite str_app_cons, re_search_unfold, <- str_app_cons.
    rewrite (Hearly "" (String c pre)) by done. rewrite IH; [done|].
    intros a1 a2 -> Ha2. by apply (Hearly (String c a1) a2).
Qed.

Lemma re_search_None_intro p s :
  (∀ a t, s = a +:+ t → match_here p t = None) → re_search p s = None.
Proof.
  induction s as [|c s IH]; intros H; rewrite re_search_unfold.
  - by rewrite (H "" "").
  - rewrite (H "" (String c s)) by done. rewrite IH; [done|].
    intros a t ->. by apply (H (String c a) t).
Qed.
End matcher.

(** ** The aside pattern *)

Section aside.
Implicit Types (s r pre post a b x y z f : string).

Lemma clean_split_single c a b : clean_split (String c "") a b.
Proof.
  intros a1 a2 _ Ha2 [r Hr]%starts_with_true. apply starts_with_true.
  destruct a2 as [|d a2]; [done|]. rewrite !str_app_cons in Hr.
  injection Hr as -> _. by exists a2.
Qed.

Lemma after_app_absent n a b :
  contains n a = false → clean_split n a b →
  after n (a +:+ b) = after n b.
Proof.
  induction a as [|c a IH]; intros Ha Hclean; [done|].
  rewrite str_app_cons, after_cons, <- str_app_cons.
  rewrite contains_cons in Ha. apply orb_false_iff in Ha as [H1 H2].
  assert (strip_prefix n (String c a +:+ b) = None) as ->.
  { apply starts_with_false_None. by rewrite clean_split_starts. }
  apply IH; [done|]. by eapply clean_split_tail.
Qed.

Lemma after_app n a b :
  clean_split n a b →
  after n (a +:+ b)
  = match after n a with Some r => Some (r +:+ b) | None => after n b end.
Proof.
  intros Hclean. destruct (after n a) as [r|] eqn:E.
  - by apply after_app_l.
  - apply after_app_absent; [|done]. by apply after_None.
Qed.

Lemma after_open_tag_is_Some x y z :
  is_Some (after_open_tag (x +:+ ">" +:+ y +:+ "</aside>" +:+ z)).
Proof.
  unfold after_open_tag.
  destruct (after_is_Some ">" x (y +:+ "</aside>" +:+ z)) as [t Ht].
  rewrite Ht. simpl. destruct (after_min _ _ _ _ _ Ht eq_refl) as [d ->].
  rewrite <- str_app_assoc. apply after_is_Some.
Qed.

Lemma after_open_tag_Some r post :
  after_open_tag r = Some post →
  ∃ x y, r = x +:+ ">" +:+ y +:+ "</aside>" +:+ post.
Proof.
  unfold after_open_tag. destruct (after ">" r) as [t|] eqn:E; [|done].
  simpl. intros [y ->]%after_Some. apply after_Some in E as [x ->]. eauto.
Qed.

Lemma after_open_tag_suffix a r :
  is_Some (after_open_tag r) → is_Some (after_open_tag (a +:+ r)).
Proof.
  intros [post (x & y & ->)%after_open_tag_Some].
  rewrite <- str_app_assoc. apply after_open_tag_is_Some.
Qed.

Lemma after_open_tag_app_l r b post :
  after_open_tag r = Some post →
  after_open_tag (r +:+ b) = Some (post +:+ b).
Proof.
  unfold after_open_tag. destruct (after ">" r) as [t|] eqn:E; [|done].
  simpl. intros Ht. rewrite (after_app_l _ _ b _ E). simpl.
  by apply after_app_l.
Qed.

Lemma after_open_tag_intro x y post :
  contains ">" x = false → contains "</aside>" y = false →
  after_open_tag (x +:+ ">" +:+ y +:+ "</aside>" +:+ post) = Some post.
Proof.
  intros Hx Hy. unfold after_open_tag.
  rewrite after_intro; [|done|apply clean_split_single]. simpl.
  apply after_intro; [done|]. by apply clean_split_hd.
Qed.

(** The search stops at the first [<aside] of the text or nowhere: when
    the pattern matches at a later [<aside], it matches at the first one
    as well. *)
Lemma re_search_aside s :
  re_search aside_pattern s =
  match split_first "<aside" s with
  | Some (pre, r0) =>
      match after_open_tag r0 with
      | Some post => Some (pre, post)
      | None => None
      end
  | None => None
  end.
Proof.
  destruct (split_first "<aside" s) as [[pre r0]|] eqn:E.
  - pose proof (split_first_Some _ _ _ _ E) as Hs.
    destruct (after_open_tag r0) as [post|] eqn:E0.
    + rewrite Hs. apply re_search_intro.
      * by rewrite match_here_aside, strip_prefix_app.
      * intros a1 a2 Hpre Ha2. rewrite match_here_aside.
        pose proof (split_first_no_earlier _ _ _ _ _ _ E Hpre Ha2) as H.
        by apply starts_with_false_None in H as ->.
    + apply re_search_None_intro. intros a t Ht.
      rewrite match_here_aside.
      destruct (strip_prefix "<aside" t) as [r1|] eqn:E1; [|done]. simpl.
      apply strip_prefix_Some in E1 as ->.
      destruct (split_first_min _ _ _ _ _ _ E Ht) as [d ->].
      rewrite Hs, str_app_assoc in Ht. apply str_app_inv_head in Ht.
      rewrite <- str_app_assoc in Ht.
      assert (∃ l, r0 = l +:+ r1) as [l ->].
      { apply str_app_eq_app in Ht as [l [[_ ->]|[Hl ->]]]; [by exists l|].
        apply (f_equal String.length) in Hl. rewrite !str_length_app in Hl.
        assert (l = "") as -> by (destruct l; [done|simpl in Hl; lia]).
        by exists "". }
      destruct (after_open_tag r1) eqn:E1; [|done].
      destruct (after_open_tag_suffix l r1) as [? H]; [by eexists|].
      congruence.
  - apply re_search_None_intro. intros a t ->. rewrite match_here_aside.
    apply split_first_None, contains_app_false in E as [_ E].
    simpl in E. destruct t as [|c t]; [done|].
    rewrite contains_cons in E. apply orb_false_iff in E as [E _].
    by apply starts_with_false_None in E as ->.
Qed.

Lemma re_search_aside_pre s pre post :
  re_search aside_pattern s = Some (pre, post) →
  contains "<aside" pre = false.
Proof.
  rewrite re_search_aside.
  destruct (split_first "<aside" s) as [[p r0]|] eqn:E; [|done].
  destruct (after_open_tag r0); [|done]. intros [= <- <-].
  by apply split_first_pre_absent in E.
Qed.

Lemma re_search_aside_split s pre post :
  re_search aside_pattern s = Some (pre, post) →
  ∃ x y, s = pre +:+ "<aside" +:+ x +:+ ">" +:+ y +:+ "</aside>" +:+ post.
Proof.
  rewrite re_search_aside.
  destruct (split_first "<aside" s) as [[p r0]|] eqn:E; [|done].
  destruct (after_open_tag r0) as [q|] eqn:E0; [|done]. intros [= <- <-].
  apply after_open_tag_Some in E0 as (x & y & ->).
  apply split_first_Some in E. eauto.
Qed.

(** A text that the pattern matches from its first to its last character
    is found again wherever it stands behind text without [<aside]. *)
Lemma re_search_aside_frag pre f post :
  contains "<aside" pre = false →
  match_here aside_pattern f = Some "" →
  re_search aside_pattern (pre +:+ f +:+ post) = Some (pre, post).
Proof.
  intros Hpre Hf. rewrite match_here_aside in Hf.
  destruct (strip_prefix "<aside" f) as [f1|] eqn:E; [|done]. simpl in Hf.
  apply strip_prefix_Some in E as ->. rewrite re_search_aside, str_app_assoc.
  rewrite split_first_intro; [|done|by apply clean_split_hd].
  by rewrite (after_open_tag_app_l _ post _ Hf).
Qed.

Lemma re_search_aside_container pre x y post :
  contains "<aside" pre = false → contains ">" x = false →
  contains "</aside>" y = false →
  re_search aside_pattern
    (pre +:+ "<aside" +:+ x +:+ ">" +:+ y +:+ "</aside>" +:+ post)
  = Some (pre, post).
Proof.
  intros Hpre Hx Hy. rewrite re_search_aside.
  rewrite split_first_intro; [|done|by apply clean_split_hd].
  by rewrite after_open_tag_intro.
Qed.
(** The texts that the pattern can match. *)
Lemma lang_aside m :
  lang aside_pattern m
  ↔ ∃ x y, m = "<aside" +:+ x +:+ ">" +:+ y +:+ "</aside>".
Proof.
  unfold aside_pattern. simpl. split.
  - intros (? & -> & ? & -> & ? & -> & ? & -> & ? & -> & ? & -> &
      x & ? & -> & ? & -> & y & ? & -> &
      ? & -> & ? & -> & ? & -> & ? & -> & ? & -> & ? & -> & ? & -> &
      ? & -> & ->).
    by exists x, y.
  - intros (x & y & ->). repeat (eexists; split; [reflexivity|]).
    exists x. eexists. split; [reflexivity|].
    eexists. split; [reflexivity|]. exists y. eexists.
    split; [reflexivity|]. repeat (eexists; split; [reflexivity|]). done.
Qed.

(** The match that the search returns is the shortest one at its
    position: it ends with the first [</aside>] behind the first [>]. *)
Lemma re_search_aside_shortest s pre post m m' rest :
  re_search aside_pattern s = Some (pre, post) →
  s = pre +:+ m +:+ post →
  m +:+ post = m' +:+ rest → lang aside_pattern m' →
  String.length m ≤ String.length m'.
Proof.
  rewrite re_search_aside. intros Hs Hsplit Heq (x & y & ->)%lang_aside.
  destruct (split_first "<aside" s) as [[p r0]|] eqn:E; [|done].
  destruct (after_open_tag r0) as [q|] eqn:E0; [|done].
  injection Hs as -> ->. apply split_first_Some in E.
  rewrite E in Hsplit. apply str_app_inv_head in Hsplit.
  rewrite <- Hsplit, !str_app_assoc in Heq. apply str_app_inv_head in Heq.
  unfold after_open_tag in E0.
  destruct (after ">" r0) as [t|] eqn:E1; [|done]. simpl in E0.
  destruct (after_min _ _ _ _ _ E1 Heq) as [d ->].
  rewrite <- str_app_assoc in E0.
  destruct (after_min _ _ _ _ _ E0 eq_refl) as [d' ->].
  apply (f_equal String.length) in Hsplit.
  rewrite Heq, !str_length_app in Hsplit. rewrite !str_length_app.
  simpl in *. lia.
Qed.
End aside.

(** ** The fragment *)

Section fragment.
Implicit Types (a b l s pre post : string).

(** The fragment depends on the active page only through the tests
    [page_name == active_page] of the nine links. *)
Lemma get_sidebar_ext a b :
  (∀ l, l ∈ nav_labels → String.eqb l a = String.eqb l b) →
  get_sidebar a = get_sidebar b.
Proof.
  intros H. unfold get_sidebar, link_class, icon_class.
  rewrite !(H "Dashboard"), !(H "Participants"), !(H "Reports & Docs"),
    !(H "AI Assistant"), !(H "Toolkit"), !(H "Audits"), !(H "NDIS Plans"),
    !(H "General"), !(H "Help Center");
    [reflexivity|by apply (bool_decide_unpack _); vm_compute..].
Qed.

Lemma get_sidebar_canon a : get_sidebar a = get_sidebar (canon_page a).
Proof.
  unfold canon_page. destruct (decide (a ∈ nav_labels)) as [|Ha]; [done|].
  apply get_sidebar_ext. intros l Hl.
  rewrite (proj2 (String.eqb_neq l a)) by (by intros ->).
  symmetry. apply String.eqb_neq. intros ->.
  apply (bool_decide_pack _) in Hl. by vm_compute in Hl.
Qed.

Lemma canon_page_elem a : canon_page a ∈ "" :: nav_labels.
Proof.
  unfold canon_page. case_decide.
  - apply elem_of_cons. by right.
  - apply elem_of_cons. by left.
Qed.

(** A property of the eleven fragments is a property of every fragment. *)
Lemma get_sidebar_all (P : string → Prop) :
  (∀ b, b ∈ "" :: nav_labels → P (get_sidebar b)) → ∀ a, P (get_sidebar a).
Proof. intros H a. rewrite get_sidebar_canon. apply H, canon_page_elem. Qed.
End fragment.

Ltac by_fragments :=
  let a := fresh "a" in
  let b := fresh "b" in
  let Hb := fresh "Hb" in
  intros a; pattern (get_sidebar a); apply get_sidebar_all; intros b Hb;
  unfold nav_labels, nav_links in Hb; simpl in Hb;
  repeat (apply elem_of_cons in Hb as [-> | Hb]);
  [vm_compute; reflexivity.. | by apply elem_of_nil in Hb].

Lemma get_sidebar_match :
  ∀ a, match_here aside_pattern (get_sidebar a) = Some "".
Proof. by_fragments. Qed.

Lemma get_sidebar_no_head : ∀ a, contains head_close (get_sidebar a) = false.
Proof. by_fragments. Qed.

Lemma get_sidebar_no_family :
  ∀ a, contains icon_family (get_sidebar a) = false.
Proof. by_fragments. Qed.

Lemma get_sidebar_no_backslash :
  ∀ a, char_in backslash (get_sidebar a) = false.
Proof. by_fragments. Qed.

Lemma get_sidebar_first : ∀ a, starts_with "<" (get_sidebar a) = true.
Proof. by_fragments. Qed.

Lemma get_sidebar_last : ∀ a, last_char (get_sidebar a) = Some ">"%char.
Proof. by_fragments. Qed.

Lemma get_sidebar_profile_name :
  ∀ a,
    contains
      (dq "<p class='text-sm font-medium text-gray-900 dark:text-white'>Sarah Chen</p>")
      (get_sidebar a) = true.
Proof. by_fragments. Qed.

Lemma get_sidebar_profile_role :
  ∀ a,
    contains
      (dq "<p class='text-xs text-text-sub-light dark:text-text-sub-dark'>Senior OT</p>")
      (get_sidebar a) = true.
Proof. by_fragments. Qed.

(** ** The two steps of the loop body *)

Section steps.
Implicit Types (c s u v pre post page n : string).

Lemma last_char_Some s x : last_char s = Some x → ∃ s', s = s' +:+ String x "".
Proof.
  induction s as [|y s IH]; [done|]. destruct s as [|z s].
  - intros [= ->]. by exists "".
  - intros [s' Hs']%IH. exists (String y s'). by rewrite str_app_cons, <- Hs'.
Qed.

Lemma clean_split_before n x t rest pre :
  starts_with (String x "") t = true → char_in x (str_tail n) = false →
  clean_split n pre (t +:+ rest).
Proof.
  intros [r ->]%starts_with_true Hx. rewrite !str_app_cons.
  by apply clean_split_hd.
Qed.

Lemma clean_split_behind n x t post :
  last_char t = Some x → char_in x (str_init n) = false →
  clean_split n t post.
Proof. intros [t' ->]%last_char_Some Hx. by apply clean_split_last. Qed.

(** Replacing [old] by [new] neither makes nor removes an occurrence of
    a needle [n] that cannot overlap their first and last characters,
    when [old] and [new] agree on holding [n]. *)
Lemma contains_str_replace n x y old new s :
  old ≠ "" →
  starts_with (String x "") old = true → last_char old = Some y →
  starts_with (String x "") new = true → last_char new = Some y →
  char_in x (str_tail n) = false → char_in y (str_init n) = false →
  contains n old = contains n new →
  contains n (str_replace old new s) = contains n s.
Proof.
  intros Hold Ho1 Ho2 Hn1 Hn2 Hx Hy Heq.
  apply (str_replace_ind (λ s s', contains n s' = contains n s)); [done..|].
  intros u v _ _ IH.
  rewrite (contains_app_clean n u (new +:+ _))
    by by eapply clean_split_before.
  rewrite (contains_app_clean n new) by by eapply clean_split_behind.
  rewrite (contains_app_clean n u (old +:+ _))
    by by eapply clean_split_before.
  rewrite (contains_app_clean n old) by by eapply clean_split_behind.
  by rewrite IH, Heq.
Qed.

Lemma contains_open_replace s :
  contains "<aside" (str_replace head_close head_with_link s)
  = contains "<aside" s.
Proof. by apply (contains_str_replace _ "<" ">"). Qed.

Lemma contains_close_replace s :
  contains "</aside>" (str_replace head_close head_with_link s)
  = contains "</aside>" s.
Proof. by apply (contains_str_replace _ "<" ">"). Qed.

Lemma contains_family_replace s :
  contains head_close s = true →
  contains icon_family (str_replace head_close head_with_link s) = true.
Proof.
  apply (str_replace_ind
    (λ s s', contains head_close s = true → contains icon_family s' = true));
    [done|congruence|].
  intros u v _ _ _ _. by apply contains_app_r, contains_app_l.
Qed.

Lemma ensure_icon_link_present c :
  contains icon_family c = true → ensure_icon_link c = c.
Proof. unfold ensure_icon_link. by intros ->. Qed.

Lemma ensure_icon_link_absent c :
  contains icon_family c = false →
  ensure_icon_link c = str_replace head_close head_with_link c.
Proof. unfold ensure_icon_link. by intros ->. Qed.

Lemma ensure_icon_link_no_head c :
  contains head_close c = false → ensure_icon_link c = c.
Proof.
  intros H. unfold ensure_icon_link. destruct (negb _); [|done].
  by apply str_replace_absent.
Qed.

Lemma ensure_icon_link_idem c :
  ensure_icon_link (ensure_icon_link c) = ensure_icon_link c.
Proof.
  destruct (contains icon_family c) eqn:E.
  { by rewrite !(ensure_icon_link_present c). }
  destruct (contains head_close c) eqn:E'.
  - rewrite (ensure_icon_link_absent c E).
    by apply ensure_icon_link_present, contains_family_replace.
  - by rewrite !(ensure_icon_link_no_head c).
Qed.

Lemma ensure_icon_link_add_links c :
  ensure_icon_link c = add_links (contains icon_family c) c.
Proof. unfold ensure_icon_link, add_links. by destruct (contains _ _). Qed.

Lemma add_links_false t :
  add_links false t = str_replace head_close head_with_link t.
Proof. reflexivity. Qed.

Lemma add_links_app p a b :
  clean_split head_close a b →
  add_links p (a +:+ b) = add_links p a +:+ add_links p b.
Proof.
  intros H. destruct p; [done|]. by apply str_replace_app_clean.
Qed.

Lemma add_links_no_head p t :
  contains head_close t = false → add_links p t = t.
Proof. intros H. destruct p; [done|]. by apply str_replace_absent. Qed.

(** *** The sidebar step *)

Lemma update_sidebar_Some page c pre post :
  re_search aside_pattern c = Some (pre, post) →
  update_sidebar page c = pre +:+ get_sidebar page +:+ post.
Proof. unfold update_sidebar, re_sub_first. by intros ->. Qed.

Lemma update_sidebar_None page c :
  re_search aside_pattern c = None → update_sidebar page c = c.
Proof. unfold update_sidebar. by intros ->. Qed.

Lemma update_sidebar_sub page c :
  update_sidebar page c = re_sub_first aside_pattern (get_sidebar page) c.
Proof.
  unfold update_sidebar, re_sub_first.
  by destruct (re_search aside_pattern c) as [[? ?]|].
Qed.

(** A fragment behind text without [<aside] is what the search finds. *)
Lemma re_search_fragment page pre post :
  contains "<aside" pre = false →
  re_search aside_pattern (pre +:+ get_sidebar page +:+ post)
  = Some (pre, post).
Proof. intros H. by apply re_search_aside_frag, get_sidebar_match. Qed.

Lemma update_sidebar_idem page c :
  update_sidebar page (update_sidebar page c) = update_sidebar page c.
Proof.
  destruct (re_search aside_pattern c) as [[pre post]|] eqn:E.
  - rewrite (update_sidebar_Some _ _ _ _ E). apply update_sidebar_Some.
    by eapply re_search_fragment, re_search_aside_pre.
  - rewrite (update_sidebar_None _ _ E). by apply update_sidebar_None.
Qed.

(** The fragment is closed off from the text around it: neither marker of
    the stylesheet step can lie across one of its ends. *)
Lemma clean_before_fragment n page pre post :
  char_in "<" (str_tail n) = false →
  clean_split n pre (get_sidebar page +:+ post).
Proof. intros H. eapply clean_split_before; [apply get_sidebar_first|done]. Qed.

Lemma clean_behind_fragment n page post :
  char_in ">" (str_init n) = false →
  clean_split n (get_sidebar page) post.
Proof. intros H. eapply clean_split_behind; [apply get_sidebar_last|done]. Qed.

Lemma add_links_fragment p page : add_links p (get_sidebar page) = get_sidebar page.
Proof. apply add_links_no_head, get_sidebar_no_head. Qed.

Lemma add_links_around_fragment p page pre post :
  add_links p (pre +:+ get_sidebar page +:+ post)
  = add_links p pre +:+ get_sidebar page +:+ add_links p post.
Proof.
  rewrite add_links_app by by apply clean_before_fragment.
  rewrite add_links_app by by apply clean_behind_fragment.
  by rewrite add_links_fragment.
Qed.
End steps.

(** ** The stylesheet step does not disturb the sidebar step *)

Section interplay.
Implicit Types (c s u v pre post page : string).

Lemma re_search_None_after s :
  re_search aside_pattern s = None
  ↔ after "<aside" s ≫= after_open_tag = None.
Proof.
  rewrite re_search_aside. unfold after.
  destruct (split_first "<aside" s) as [[pre r0]|]; [|done]. simpl.
  by destruct (after_open_tag r0).
Qed.

Lemma head_close_after_gt : after ">" head_close = Some "".
Proof. reflexivity. Qed.

Lemma head_with_link_after_gt :
  after ">" head_with_link = Some (nl +:+ head_close).
Proof. reflexivity. Qed.

Lemma head_close_after_open : after "<aside" head_close = None.
Proof. reflexivity. Qed.

Lemma head_with_link_after_open : after "<aside" head_with_link = None.
Proof. reflexivity. Qed.

(** A text in which the pattern finds nothing stays so when the links are
    put in: a link brings a [>] of its own, but the [</head>] behind it
    has one as well. *)
Lemma after_replace_None s :
  after "<aside" s ≫= after_open_tag = None →
  after "<aside" (str_replace head_close head_with_link s) ≫= after_open_tag
  = None.
Proof.
  apply (str_replace_ind (λ s s',
    after "<aside" s ≫= after_open_tag = None →
    after "<aside" s' ≫= after_open_tag = None)); [done|done|].
  intros u v _ _ IH.
  set (v' := str_replace head_close head_with_link v) in *.
  rewrite (after_app "<aside" u (head_close +:+ v))
    by by apply (clean_split_before _ "<").
  rewrite (after_app "<aside" u (head_with_link +:+ v'))
    by by apply (clean_split_before _ "<").
  destruct (after "<aside" u) as [r|]; cbn [mbind option_bind].
  - unfold after_open_tag.
    rewrite !(after_app ">") by apply clean_split_single.
    destruct (after ">" r) as [t|]; cbn [mbind option_bind].
    + rewrite !after_None.
      rewrite (contains_app_clean _ t (head_close +:+ v))
        by by apply (clean_split_before _ "<").
      rewrite (contains_app_clean _ t (head_with_link +:+ v'))
        by by apply (clean_split_before _ "<").
      rewrite (contains_app_clean _ head_close)
        by by apply (clean_split_behind _ ">").
      rewrite (contains_app_clean _ head_with_link)
        by by apply (clean_split_behind _ ">").
      unfold v'. by rewrite contains_close_replace.
    + rewrite head_close_after_gt, head_with_link_after_gt.
      cbn [mbind option_bind]. rewrite !after_None, str_app_nil_l.
      rewrite (contains_app_clean _ (nl +:+ head_close))
        by by apply (clean_split_behind _ ">").
      unfold v'. by rewrite contains_close_replace.
  - rewrite (after_app "<aside" head_close)
      by by apply (clean_split_behind _ ">").
    rewrite (after_app "<aside" head_with_link)
      by by apply (clean_split_behind _ ">").
    by rewrite head_close_after_open, head_with_link_after_open.
Qed.

Lemma re_search_replace_None s :
  re_search aside_pattern s = None →
  re_search aside_pattern (str_replace head_close head_with_link s) = None.
Proof. rewrite !re_search_None_after. apply after_replace_None. Qed.

Lemma update_sidebar_replaced page c :
  update_sidebar page
    (str_replace head_close head_with_link (update_sidebar page c))
  = str_replace head_close head_with_link (update_sidebar page c).
Proof.
  destruct (re_search aside_pattern c) as [[pre post]|] eqn:E.
  - rewrite (update_sidebar_Some _ _ _ _ E).
    rewrite <- !add_links_false, add_links_around_fragment.
    apply update_sidebar_Some, re_search_fragment.
    rewrite add_links_false, contains_open_replace.
    by eapply re_search_aside_pre.
  - rewrite (update_sidebar_None _ _ E).
    by apply update_sidebar_None, re_search_replace_None.
Qed.

Lemma update_sidebar_patch page c :
  update_sidebar page (patch page c) = patch page c.
Proof.
  unfold patch, ensure_icon_link. destruct (negb _).
  - apply update_sidebar_replaced.
  - apply update_sidebar_idem.
Qed.

Lemma patch_idem page c : patch page (patch page c) = patch page c.
Proof.
  unfold patch at 1. rewrite update_sidebar_patch. unfold patch.
  apply ensure_icon_link_idem.
Qed.
End interplay.

(** ** The loop *)

Section loop.
Implicit Types (w : world) (e : string * string) (es : list (string * string)).
Implicit Types (p : string) (disk : gmap string string).

Lemma process_file_spec w e :
  process_file w e =
  World
    (match fs w !! entry_path e with
     | Some content => <[entry_path e := patch e.2 content]> (fs w)
     | None => fs w
     end)
    (log w ++ entry_events (fs w) e).
Proof.
  destruct e as [filename page_name].
  unfold process_file, entry_events, entry_path, patch, ensure_icon_link,
    update_sidebar, sidebar_notice, write_file, print, emit; simpl.
  destruct (fs w !! path_join design_dir filename) as [content|]; [|done].
  destruct (re_search aside_pattern content) as [[pre post]|];
    destruct (contains icon_family _); simpl;
    by rewrite <- ?(assoc_L (++)).
Qed.

Lemma process_file_lookup w e p :
  fs (process_file w e) !! p =
  if decide (p = entry_path e) then patch e.2 <$> fs w !! p else fs w !! p.
Proof.
  rewrite process_file_spec. simpl. case_decide as Hp.
  - subst p. destruct (fs w !! entry_path e) as [c|] eqn:E.
    + by rewrite lookup_insert_eq.
    + by rewrite E.
  - destruct (fs w !! entry_path e); [|done]. by rewrite lookup_insert_ne.
Qed.

Lemma process_file_dom w e : dom (fs (process_file w e)) = dom (fs w).
Proof.
  rewrite process_file_spec. simpl.
  destruct (fs w !! entry_path e) as [c|] eqn:E; [|done].
  by apply dom_insert_lookup_L.
Qed.

Lemma entry_events_ext disk disk' e :
  disk !! entry_path e = disk' !! entry_path e →
  entry_events disk e = entry_events disk' e.
Proof. unfold entry_events. by intros ->. Qed.

Lemma run_over_cons e es w :
  run_over (e :: es) w = run_over es (process_file w e).
Proof. reflexivity. Qed.

Lemma run_over_lookup_other es w p :
  (∀ e, e ∈ es → entry_path e ≠ p) →
  fs (run_over es w) !! p = fs w !! p.
Proof.
  revert w. induction es as [|e es IH]; intros w H; [done|].
  rewrite run_over_cons, IH, process_file_lookup.
  - rewrite decide_False; [done|]. intros ->. apply (H e); [|done].
    apply elem_of_cons. by left.
  - intros e' He'. apply H, elem_of_cons. by right.
Qed.

Lemma run_over_lookup es w e :
  NoDup (entry_path <$> es) → e ∈ es →
  fs (run_over es w) !! entry_path e = patch e.2 <$> fs w !! entry_path e.
Proof.
  revert w. induction es as [|e0 es IH]; intros w Hnd He.
  { by apply elem_of_nil in He. }
  rewrite fmap_cons in Hnd. apply NoDup_cons in Hnd as [Hnot Hnd].
  rewrite run_over_cons. apply elem_of_cons in He as [->|He].
  - rewrite run_over_lookup_other, process_file_lookup.
    + by rewrite decide_True.
    + intros e' He' Heq. apply Hnot. rewrite <- Heq.
      by apply list_elem_of_fmap_2.
  - rewrite IH, process_file_lookup by done.
    rewrite decide_False; [done|]. intros Heq. apply Hnot. rewrite <- Heq.
    by apply list_elem_of_fmap_2.
Qed.

Lemma run_over_log es w :
  NoDup (entry_path <$> es) →
  log (run_over es w) = log w ++ (es ≫= entry_events (fs w)).
Proof.
  revert w. induction es as [|e0 es IH]; intros w Hnd.
  { simpl. by rewrite app_nil_r. }
  rewrite fmap_cons in Hnd. apply NoDup_cons in Hnd as [Hnot Hnd].
  rewrite run_over_cons, IH by done. rewrite process_file_spec at 1.
  simpl. rewrite <- (assoc_L (++)). do 2 f_equal.
  apply Forall_bind_ext, Forall_forall. intros e He.
  apply entry_events_ext. rewrite process_file_lookup.
  rewrite decide_False; [done|]. intros Heq. apply Hnot. rewrite <- Heq.
  by apply list_elem_of_fmap_2.
Qed.

Lemma run_over_dom es w : dom (fs (run_over es w)) = dom (fs w).
Proof.
  revert w. induction es as [|e es IH]; intros w; [done|].
  by rewrite run_over_cons, IH, process_file_dom.
Qed.

Lemma files_paths_NoDup : NoDup (entry_path <$> files).
Proof. by apply (bool_decide_unpack _); vm_compute. Qed.

Lemma log_print line w : log (print line w) = log w ++ [Printed line].
Proof. reflexivity. Qed.

Lemma run_fs w : fs (run w) = fs (run_over files w).
Proof. reflexivity. Qed.

Lemma run_log w :
  log (run w)
  = log w ++ (files ≫= entry_events (fs w)) ++ [Printed "All files processed."].
Proof.
  unfold run. rewrite log_print, run_over_log by apply files_paths_NoDup.
  by rewrite <- (assoc_L (++)).
Qed.

Lemma run_lookup w e :
  e ∈ files →
  fs (run w) !! entry_path e = patch e.2 <$> fs w !! entry_path e.
Proof.
  intros He. rewrite run_fs. apply run_over_lookup; [|done].
  apply files_paths_NoDup.
Qed.
End loop.

(** * The fragment builder: styles of the nav links *)

Section builder.
Implicit Types (active_page page_name a : string).

Lemma link_class_eq active_page page_name :
  link_class active_page page_name
  = link_base +:+
    (if decide (page_name = active_page) then link_active else link_hover).
Proof.
  unfold link_class. case_decide as H.
  - subst. by rewrite String.eqb_refl.
  - by apply String.eqb_neq in H as ->.
Qed.

Lemma icon_class_eq active_page page_name :
  icon_class active_page page_name
  = icon_base +:+
    (if decide (page_name = active_page) then "" else icon_hover).
Proof.
  unfold icon_class. case_decide as H.
  - subst. by rewrite String.eqb_refl, str_app_nil_r.
  - by apply String.eqb_neq in H as ->.
Qed.

Lemma forall_nav_links (f : string * string * string → bool) :
  forallb f nav_links = true → ∀ l, l ∈ nav_links → f l = true.
Proof.
  intros H l Hl. apply list_elem_of_In in Hl.
  by apply (proj1 (forallb_forall f nav_links) H).
Qed.

(** Either the active page is the label of a link, or the fragment is the
    one in which no link is active. *)
Lemma page_cases a :
  a ∈ nav_labels ∨
  ((a ∉ nav_labels) ∧ get_sidebar a = get_sidebar "" ∧
   ∀ l, l ∈ nav_labels → l ≠ a).
Proof.
  destruct (decide (a ∈ nav_labels)) as [Ha|Ha]; [by left|right].
  split_and!; [done| |by intros l Hl ->].
  rewrite get_sidebar_canon. unfold canon_page. by rewrite decide_False.
Qed.
End builder.

Ltac each_label H :=
  unfold nav_labels, nav_links in H; simpl in H;
  repeat (apply elem_of_cons in H as [-> | H]);
  [..| by apply elem_of_nil in H].

(** The markup of each link stands in the fragment, with the styles that
    the comparison of its label with the active page selects. *)
Lemma nav_links_in_fragment (active_page : string) l :
  l ∈ nav_links →
  contains
    (nav_link_markup
       (link_base +:+
          (if decide (l.1.1 = active_page) then link_active else link_hover))
       (icon_base +:+
          (if decide (l.1.1 = active_page) then "" else icon_hover)) l)
    (get_sidebar active_page) = true.
Proof.
  revert l. destruct (page_cases active_page) as [Ha|(Ha & -> & Hne)].
  - each_label Ha; by apply forall_nav_links; vm_compute.
  - intros l Hl. rewrite !decide_False
      by (apply Hne; by apply (list_elem_of_fmap_2 (λ l, l.1.1))).
    revert l Hl. by apply forall_nav_links; vm_compute.
Qed.

(** C3. For every nav link of the built fragment, the link style and the
    icon style are a fixed base followed by the active suffix when the
    label of the link is equal, as a string, to the active page, and by
    the hover suffix otherwise (the active suffix of the icon style is
    empty).  The markup of each of the nine links, with these two styles,
    stands in the fragment, and the fragment has no other link with a
    computed style. *)
Theorem nav_link_styles (active_page : string) :
  (∀ page_name,
     link_class active_page page_name
     = link_base +:+
       (if decide (page_name = active_page) then link_active else link_hover)
     ∧ icon_class active_page page_name
       = icon_base +:+
         (if decide (page_name = active_page) then "" else icon_hover)) ∧
  (∀ l, l ∈ nav_links →
     contains
       (nav_link_markup
          (link_base +:+
             (if decide (l.1.1 = active_page) then link_active else link_hover))
          (icon_base +:+
             (if decide (l.1.1 = active_page) then "" else icon_hover)) l)
       (get_sidebar active_page) = true) ∧
  occurrences (dq "<a class='") (get_sidebar active_page) = length nav_links.
Proof.
  split_and!.
  - intros page_name. split; [apply link_class_eq|apply icon_class_eq].
  - apply nav_links_in_fragment.
  - revert active_page. by_fragments.
Qed.

(** C9. The fragment builder has a result for every string: whatever the
    active page is, the empty string and the strings that are the label
    of no link included, the result is one aside container, and it is the
    fragment of a label of a link or the fragment without an active
    link. *)
Theorem get_sidebar_total (active_page : string) :
  (∃ attrs body,
     get_sidebar active_page
     = "<aside" +:+ attrs +:+ ">" +:+ body +:+ "</aside>" ∧
     contains ">" attrs = false ∧ contains "</aside>" body = false) ∧
  get_sidebar active_page = get_sidebar (canon_page active_page) ∧
  canon_page active_page ∈ "" :: nav_labels.
Proof.
  split_and!; [|apply get_sidebar_canon|apply canon_page_elem].
  pose proof (get_sidebar_match active_page) as H.
  rewrite match_here_aside in H.
  destruct (strip_prefix "<aside" _) as [f1|] eqn:E1; [|done].
  apply strip_prefix_Some in E1. simpl in H. unfold after_open_tag, after in H.
  destruct (split_first ">" f1) as [[attrs f2]|] eqn:E2; [|done]. simpl in H.
  destruct (split_first "</aside>" f2) as [[body f3]|] eqn:E3; [|done].
  simpl in H. injection H as ->. exists attrs, body. split_and!.
  - rewrite E1. f_equal. rewrite (split_first_Some _ _ _ _ E2). do 2 f_equal.
    by rewrite (split_first_Some _ _ _ _ E3), str_app_nil_r.
  - by eapply split_first_pre_absent.
  - by eapply split_first_pre_absent.
Qed.

(** C2, as the code has it.  The template computes the styles of nine
    links; the tenth link of the fragment, the profile footer, has a fixed
    style.  When the active page is the label of one of the nine links,
    exactly that link has the active style pair and the other eight have
    the hover pair.  For every other active page, the configured display
    name "Profile" included, no link has the active pair and all nine
    have the hover pair.  The configured display names other than
    "Profile" are labels of links. *)
Theorem active_link_count (active_page : string) :
  (active_page ∈ nav_labels →
     active_links (get_sidebar active_page) = 1 ∧
     hover_links (get_sidebar active_page) = 8 ∧
     active_icons (get_sidebar active_page) = 1 ∧
     hover_icons (get_sidebar active_page) = 8 ∧
     ∃ l,
       l ∈ nav_links ∧ l.1.1 = active_page ∧
       contains
         (nav_link_markup (link_base +:+ link_active) icon_base l)
         (get_sidebar active_page) = true) ∧
  (active_page ∉ nav_labels →
     active_links (get_sidebar active_page) = 0 ∧
     hover_links (get_sidebar active_page) = 9 ∧
     active_icons (get_sidebar active_page) = 0 ∧
     hover_icons (get_sidebar active_page) = 9) ∧
  occurrences "<a " (get_sidebar active_page) = 10 ∧
  (∀ name, name ∈ files.*2 → name ∈ nav_labels ↔ name ≠ "Profile").
Proof.
  split_and!.
  - intros Ha. split_and!.
    1-4: each_label Ha; by vm_compute.
    apply list_elem_of_fmap in Ha as (l & -> & Hl). exists l.
    split_and!; [done..|].
    pose proof (nav_links_in_fragment (l.1.1) l Hl) as H.
    by rewrite !decide_True, str_app_nil_r in H.
  - intros Ha. destruct (page_cases active_page) as [|(_ & -> & _)]; [done|].
    split_and!; by vm_compute.
  - revert active_page. by_fragments.
  - intros name Hn. unfold files in Hn. simpl in Hn.
    repeat (apply elem_of_cons in Hn as [-> | Hn]);
      [..| by apply elem_of_nil in Hn];
      (split; [intros Hq|intros Hq]); try done;
      try (by apply (bool_decide_unpack _); vm_compute).
    apply (bool_decide_pack _) in Hq. by vm_compute in Hq.
Qed.

Lemma active_link_count_witness :
  active_links (get_sidebar "Dashboard") = 1 ∧
  hover_links (get_sidebar "Dashboard") = 8 ∧
  active_links (get_sidebar "Profile") = 0 ∧
  hover_links (get_sidebar "Profile") = 9.
Proof.
  destruct (active_link_count "Dashboard") as (H1 & _).
  destruct (active_link_count "Profile") as (_ & H2 & _).
  destruct H1 as (Ha & Hb & _).
  { apply (bool_decide_unpack _). vm_compute. exact I. }
  destruct H2 as (Hc & Hd & _).
  { intros Hin. apply (bool_decide_pack _) in Hin. vm_compute in Hin.
    exact Hin. }
  auto.
Defined.

(** C2 as stated fails at the configured display name "Profile": no link
    of its fragment has the active style pair. *)
Lemma profile_page_has_no_active_link :
  "Profile" ∈ files.*2 ∧
  active_links (get_sidebar "Profile") = 0 ∧
  active_icons (get_sidebar "Profile") = 0 ∧
  hover_links (get_sidebar "Profile") = 9 ∧
  ¬ (∀ name, name ∈ files.*2 → active_links (get_sidebar name) = 1).
Proof.
  assert ("Profile" ∈ files.*2) as Hin
    by (by apply (bool_decide_unpack _); vm_compute).
  split_and!; [done|by vm_compute..|].
  intros H. specialize (H "Profile" Hin). by vm_compute in H.
Qed.

(** * The patcher *)

Section patcher.
Implicit Types (w : world) (e : string * string) (es : list (string * string)).
Implicit Types (p filename page_name content pre post : string).
Implicit Types (disk : gmap string string) (ev : event).

Lemma update_sidebar_container page_name pre attrs inner post :
  contains "<aside" pre = false → contains ">" attrs = false →
  contains "</aside>" inner = false →
  update_sidebar page_name
    (pre +:+ "<aside" +:+ attrs +:+ ">" +:+ inner +:+ "</aside>" +:+ post)
  = pre +:+ get_sidebar page_name +:+ post.
Proof.
  intros H1 H2 H3. by apply update_sidebar_Some, re_search_aside_container.
Qed.

Lemma patch_around_fragment page_name content pre post :
  update_sidebar page_name content = pre +:+ get_sidebar page_name +:+ post →
  let present := contains icon_family (update_sidebar page_name content) in
  patch page_name content
  = add_links present pre +:+ get_sidebar page_name +:+ add_links present post.
Proof.
  intros H present. unfold patch. rewrite ensure_icon_link_add_links.
  fold present. by rewrite H, add_links_around_fragment.
Qed.

(** *** The events of a run *)

Lemma written_app p (evs evs' : list event) :
  written p (evs ++ evs') = written p evs ++ written p evs'.
Proof. apply omap_app. Qed.

Lemma written_entry_events disk e p :
  written p (entry_events disk e) =
  if decide (entry_path e = p)
  then match disk !! p with
       | Some content => [patch e.2 content]
       | None => []
       end
  else [].
Proof.
  unfold entry_events. case_decide as Hp.
  - subst p. destruct (disk !! entry_path e) as [content|]; [|done].
    rewrite !written_app.
    assert (∀ x, written (entry_path e)
      (if contains icon_family (update_sidebar e.2 content) then []
       else [Printed x]) = []) as -> by (intros x; by destruct (contains _ _)).
    unfold written. simpl. by rewrite decide_True.
  - destruct (disk !! entry_path e) as [content|]; [|done].
    rewrite !written_app.
    assert (∀ x, written p
      (if contains icon_family (update_sidebar e.2 content) then []
       else [Printed x]) = []) as -> by (intros x; by destruct (contains _ _)).
    unfold written. simpl. by rewrite decide_False.
Qed.

Lemma written_bind_other es disk p :
  (∀ e, e ∈ es → entry_path e ≠ p) →
  written p (es ≫= entry_events disk) = [].
Proof.
  induction es as [|e es IH]; intros H; [done|].
  rewrite bind_cons, written_app, written_entry_events, IH.
  - rewrite decide_False; [done|]. apply H, elem_of_cons. by left.
  - intros e' He'. apply H, elem_of_cons. by right.
Qed.

Lemma written_bind es disk e :
  NoDup (entry_path <$> es) → e ∈ es →
  written (entry_path e) (es ≫= entry_events disk)
  = match disk !! entry_path e with
    | Some content => [patch e.2 content]
    | None => []
    end.
Proof.
  induction es as [|e0 es IH]; intros Hnd He.
  { by apply elem_of_nil in He. }
  rewrite fmap_cons in Hnd. apply NoDup_cons in Hnd as [Hnot Hnd].
  rewrite bind_cons, written_app, written_entry_events.
  apply elem_of_cons in He as [->|He].
  - rewrite decide_True by done. rewrite written_bind_other.
    + by rewrite app_nil_r.
    + intros e' He' Heq. apply Hnot. rewrite <- Heq.
      by apply list_elem_of_fmap_2.
  - rewrite decide_False, IH; [done..|]. intros Heq. apply Hnot.
    rewrite Heq. by apply list_elem_of_fmap_2.
Qed.

Lemma touches_entry_events disk e p ev :
  ev ∈ entry_events disk e → touches p ev = true →
  p = entry_path e ∧ is_Some (disk !! p).
Proof.
  unfold entry_events. destruct (disk !! entry_path e) as [content|] eqn:E.
  - intros Hev Ht.
    assert (p = entry_path e) as ->; [|by rewrite E].
    rewrite !elem_of_app in Hev. destruct Hev as [Hev|[Hev|Hev]].
    + apply elem_of_cons in Hev as [->|Hev].
      { simpl in Ht. by apply bool_decide_eq_true in Ht. }
      apply list_elem_of_singleton in Hev as ->. done.
    + destruct (contains _ _); [by apply elem_of_nil in Hev|].
      by apply list_elem_of_singleton in Hev as ->.
    + apply list_elem_of_singleton in Hev as ->. simpl in Ht.
      by apply bool_decide_eq_true in Ht.
  - by intros ->%list_elem_of_singleton.
Qed.

Lemma sidebar_notice_printed disk e content :
  disk !! entry_path e = Some content →
  Printed (sidebar_notice e.1 content) ∈ entry_events disk e.
Proof.
  intros H. unfold entry_events. rewrite H. apply elem_of_app. left.
  apply elem_of_cons. right. by apply list_elem_of_singleton.
Qed.
End patcher.

(** C1. For each of the eight configured pairs, a run over a disk whose
    document holds one well-formed aside container (no [<aside] before
    it, no [>] among its attributes, no [</aside>] in its content) writes
    back a document in which the container is replaced by exactly
    [get_sidebar] of the display name; the text around the container is
    the old one after the stylesheet step.  The fragment holds the fixed
    profile footer "Sarah Chen" / "Senior OT". *)
Theorem patcher_replaces_container
    (w : world) (filename page_name pre attrs inner post : string) :
  (filename, page_name) ∈ files →
  contains "<aside" pre = false →
  contains ">" attrs = false →
  contains "</aside>" inner = false →
  fs w !! path_join design_dir filename
  = Some (pre +:+ "<aside" +:+ attrs +:+ ">" +:+ inner +:+ "</aside>" +:+ post) →
  let present :=
    contains icon_family (pre +:+ get_sidebar page_name +:+ post) in
  fs (run w) !! path_join design_dir filename
  = Some (add_links present pre +:+ get_sidebar page_name
          +:+ add_links present post) ∧
  contains (dq "<p class='text-sm font-medium text-gray-900 dark:text-white'>Sarah Chen</p>")
    (get_sidebar page_name) = true ∧
  contains (dq "<p class='text-xs text-text-sub-light dark:text-text-sub-dark'>Senior OT</p>")
    (get_sidebar page_name) = true.
Proof.
  intros Hin Hpre Hattrs Hinner Hdoc present.
  pose proof (update_sidebar_container page_name _ _ _ post Hpre Hattrs Hinner)
    as Hup.
  split_and!.
  - change (path_join design_dir filename)
      with (entry_path (filename, page_name)) in *.
    rewrite (run_lookup w (filename, page_name) Hin), Hdoc. simpl. f_equal.
    rewrite (patch_around_fragment _ _ _ _ Hup). unfold present.
    by rewrite Hup.
  - apply get_sidebar_profile_name.
  - apply get_sidebar_profile_role.
Qed.

Lemma patcher_replaces_container_witness :
  fs (run (World {[ ".designs/dashboard.html" := old_page ]} []))
    !! ".designs/dashboard.html"
  = Some (get_sidebar "Dashboard").
Proof.
  destruct (patcher_replaces_container
    (World {[ ".designs/dashboard.html" := old_page ]} [])
    "dashboard.html" "Dashboard" "" (dq " class='old'") "OLD CONTENT" "")
    as [H _].
  - apply (bool_decide_unpack _). vm_compute. exact I.
  - reflexivity.
  - reflexivity.
  - reflexivity.
  - reflexivity.
  - rewrite !add_links_no_head, str_app_nil_r in H by reflexivity. exact H.
Defined.

(** C6. When the aside container holds a closing aside tag of a nested
    container, the match ends at that first [</aside>]: the fragment
    replaces the text from the first opening tag to the inner closing
    tag, and the rest of the outer container, with its own closing tag,
    stays in the output. *)
Theorem nested_container_truncated
    (page_name pre attrs inner rest post : string) :
  contains "<aside" pre = false →
  contains ">" attrs = false →
  contains "</aside>" inner = false →
  let doc :=
    pre +:+ "<aside" +:+ attrs +:+ ">" +:+ inner +:+ "</aside>" +:+
      rest +:+ "</aside>" +:+ post in
  re_search aside_pattern doc = Some (pre, rest +:+ "</aside>" +:+ post) ∧
  update_sidebar page_name doc
  = pre +:+ get_sidebar page_name +:+ rest +:+ "</aside>" +:+ post ∧
  let present := contains icon_family (update_sidebar page_name doc) in
  patch page_name doc
  = add_links present pre +:+ get_sidebar page_name +:+
    add_links present rest +:+ "</aside>" +:+ add_links present post.
Proof.
  intros Hpre Hattrs Hinner doc. subst doc.
  pose proof (re_search_aside_container pre attrs inner
    (rest +:+ "</aside>" +:+ post) Hpre Hattrs Hinner) as Hsearch.
  pose proof (update_sidebar_Some page_name _ _ _ Hsearch) as Hup.
  split_and!; [done..|]. intros present.
  rewrite (patch_around_fragment _ _ _ _ Hup). fold present. do 2 f_equal.
  rewrite add_links_app by by apply (clean_split_before _ "<").
  rewrite add_links_app by by apply (clean_split_behind _ ">").
  by rewrite (add_links_no_head _ "</aside>").
Qed.

Lemma nested_container_truncated_witness :
  update_sidebar "Reports & Docs" nested_page
  = "<body>" +:+ get_sidebar "Reports & Docs" +:+ "more</aside></body>".
Proof.
  destruct (nested_container_truncated "Reports & Docs"
    "<body>" (dq " class='nav'") "menu<aside>tip" "more" "</body>")
    as (_ & H & _).
  - reflexivity.
  - reflexivity.
  - reflexivity.
  - exact H.
Defined.

(** C4. For a configured document that exists, the sidebar step replaces
    the first match of the pattern, and only it, by the fragment: the
    text before the match and the text after it are kept, the pattern
    matches at no earlier position, and no match at that position is
    shorter.  When the pattern matches nowhere, the
    warning is printed and the step leaves the text as it is.  In both
    cases the run writes the path once, with the patched text. *)
Theorem sidebar_replacement_first_match
    (w : world) (filename page_name content : string) :
  (filename, page_name) ∈ files →
  fs w !! path_join design_dir filename = Some content →
  ∃ evs,
    log (run w) = log w ++ evs ∧
    match re_search aside_pattern content with
    | Some (pre, post) =>
        (∃ m, content = pre +:+ m +:+ post ∧ lang aside_pattern m ∧
           (∀ a1 a2 m' rest,
              pre = a1 +:+ a2 → a2 ≠ "" →
              a2 +:+ m +:+ post = m' +:+ rest → ¬ lang aside_pattern m') ∧
           (∀ m' rest,
              m +:+ post = m' +:+ rest → lang aside_pattern m' →
              String.length m ≤ String.length m')) ∧
        update_sidebar page_name content
        = pre +:+ get_sidebar page_name +:+ post ∧
        Printed ("Updated sidebar in " +:+ filename) ∈ evs
    | None =>
        (∀ a m b, content = a +:+ m +:+ b → ¬ lang aside_pattern m) ∧
        update_sidebar page_name content = content ∧
        Printed ("Warning: No aside tag found in " +:+ filename) ∈ evs
    end ∧
    written (path_join design_dir filename) evs = [patch page_name content] ∧
    fs (run w) !! path_join design_dir filename
    = Some (patch page_name content).
Proof.
  intros Hin Hdoc.
  change (path_join design_dir filename)
    with (entry_path (filename, page_name)) in *.
  eexists. split; [apply run_log|]. split_and!.
  - pose proof (sidebar_notice_printed _ _ _ Hdoc) as Hnote.
    assert (Printed (sidebar_notice filename content)
      ∈ (files ≫= entry_events (fs w)) ++ [Printed "All files processed."])
      as Hev.
    { apply elem_of_app. left. apply list_elem_of_bind. eauto. }
    unfold sidebar_notice in Hev.
    destruct (re_search aside_pattern content) as [[pre post]|] eqn:E.
    + split_and!; [|by apply update_sidebar_Some|done].
      destruct (re_search_Some _ _ _ _ E) as (t & Hc & Ht & Hearly).
      destruct (match_here_sound _ _ _ Ht) as (m & -> & Hm).
      exists m. split_and!; [done..| |].
      * intros a1 a2 m' rest Hpre Ha2 Heq Hm'.
        destruct (match_here_complete _ _ rest Hm') as [r Hr].
        rewrite <- Heq, (Hearly a1 a2 Hpre Ha2) in Hr. done.
      * intros m' rest Heq Hm'.
        by apply (re_search_aside_shortest content pre post m m' rest).
    + split_and!; [|by apply update_sidebar_None|done].
      intros a m b -> Hm.
      destruct (match_here_complete _ _ b Hm) as [r Hr].
      by rewrite (re_search_None _ _ a _ E eq_refl) in Hr.
  - rewrite written_app, (written_bind _ _ (filename, page_name))
      by (done || apply files_paths_NoDup).
    by rewrite Hdoc.
  - rewrite (run_lookup w (filename, page_name) Hin). by rewrite Hdoc.
Qed.

Lemma sidebar_replacement_first_match_witness :
  ∃ evs,
    log (run (World {[ ".designs/toolkit.html" := plain_page ]} [])) = evs ∧
    Printed "Warning: No aside tag found in toolkit.html" ∈ evs ∧
    written ".designs/toolkit.html" evs = [plain_page].
Proof.
  destruct (sidebar_replacement_first_match
    (World {[ ".designs/toolkit.html" := plain_page ]} [])
    "toolkit.html" "Toolkit" plain_page) as (evs & Hlog & Hstep & Hw & _).
  - apply (bool_decide_unpack _). vm_compute. exact I.
  - reflexivity.
  - exists evs. split; [exact Hlog|]. split.
    + destruct Hstep as (_ & _ & Hp). exact Hp.
    + exact Hw.
Defined.

(** C8. For a configured path that does not exist, the iteration prints
    the skip notice and leaves the disk as it is; in the whole run no
    event reads or writes the path, the path does not exist afterwards,
    and a run creates no file at all. *)
Theorem missing_file_skipped (w : world) (filename page_name : string) :
  (filename, page_name) ∈ files →
  fs w !! path_join design_dir filename = None →
  process_file w (filename, page_name)
  = World (fs w)
      (log w ++ [Printed ("Skipping " +:+ filename +:+ ", does not exist")]) ∧
  (∃ evs,
     log (run w) = log w ++ evs ∧
     Printed ("Skipping " +:+ filename +:+ ", does not exist") ∈ evs ∧
     ∀ ev, ev ∈ evs → touches (path_join design_dir filename) ev = false) ∧
  fs (run w) !! path_join design_dir filename = None ∧
  dom (fs (run w)) = dom (fs w).
Proof.
  intros Hin Hdoc.
  change (path_join design_dir filename)
    with (entry_path (filename, page_name)) in *.
  split_and!.
  - rewrite process_file_spec. unfold entry_events. by rewrite Hdoc.
  - eexists. split; [apply run_log|]. split.
    + apply elem_of_app. left. apply list_elem_of_bind.
      exists (filename, page_name). split; [|done].
      unfold entry_events. rewrite Hdoc. by apply list_elem_of_singleton.
    + intros ev Hev. apply not_true_is_false. intros Ht.
      apply elem_of_app in Hev as [Hev|Hev].
      * apply list_elem_of_bind in Hev as (e & Hev & _).
        destruct (touches_entry_events _ _ _ _ Hev Ht) as [_ [c Hc]].
        congruence.
      * by apply list_elem_of_singleton in Hev as ->.
  - rewrite (run_lookup w (filename, page_name) Hin). by rewrite Hdoc.
  - rewrite run_fs. apply run_over_dom.
Qed.

Lemma missing_file_skipped_witness :
  fs (run (World ∅ [])) = ∅ ∧
  Printed "Skipping general.html, does not exist" ∈ log (run (World ∅ [])).
Proof.
  destruct (missing_file_skipped (World ∅ []) "general.html" "General")
    as (_ & (evs & Hlog & Hp & _) & _ & Hdom).
  - apply (bool_decide_unpack _). vm_compute. exact I.
  - reflexivity.
  - split.
    + apply (dom_empty_inv_L (D := gset string)). rewrite Hdom.
      apply dom_empty_L.
    + rewrite Hlog. exact Hp.
Defined.

(** * The stylesheet step *)

Section stylesheet.
Implicit Types (content u v t page_name n : string) (parts : list string).

Lemma contains_update_sidebar n page_name content :
  char_in "<" (str_tail n) = false → char_in ">" (str_init n) = false →
  contains n (get_sidebar page_name) = false →
  contains n content = false →
  contains n (update_sidebar page_name content) = false.
Proof.
  intros Hhd Hlast Hfrag Hc.
  destruct (re_search aside_pattern content) as [[pre post]|] eqn:E.
  - rewrite (update_sidebar_Some _ _ _ _ E).
    apply re_search_aside_split in E as (x & y & ->).
    apply contains_app_false in Hc as [Hpre Hc].
    do 5 apply contains_app_false in Hc as [_ Hc].
    rewrite contains_app_clean by by apply clean_before_fragment.
    rewrite contains_app_clean by by apply clean_behind_fragment.
    by rewrite Hpre, Hfrag, Hc.
  - by rewrite (update_sidebar_None _ _ E).
Qed.

Lemma ensure_icon_link_first content u v :
  contains icon_family content = false →
  content = u +:+ head_close +:+ v → contains head_close u = false →
  ensure_icon_link content
  = u +:+ icon_link +:+ nl +:+ head_close
      +:+ str_replace head_close head_with_link v.
Proof.
  intros Hfam -> Hu. rewrite ensure_icon_link_absent by done.
  rewrite str_replace_first; [|done|done|by apply clean_split_hd].
  unfold head_with_link. by rewrite !str_app_assoc.
Qed.

Lemma ensure_icon_link_changes content :
  ensure_icon_link content ≠ content
  ↔ contains icon_family content = false ∧ contains head_close content = true.
Proof.
  split.
  - intros H. destruct (contains icon_family content) eqn:E.
    { by rewrite ensure_icon_link_present in H. }
    destruct (contains head_close content) eqn:E'; [done|].
    by rewrite ensure_icon_link_no_head in H.
  - intros [Hfam Hhead] Heq.
    rewrite ensure_icon_link_absent in Heq by done.
    apply contains_family_replace in Hhead. congruence.
Qed.

(** *** Several closing head markers *)

Lemma concat_cons sep t t' parts :
  String.concat sep (t :: t' :: parts)
  = t +:+ sep +:+ String.concat sep (t' :: parts).
Proof. reflexivity. Qed.

Lemma occurrences_cons n x s :
  occurrences n (String x s)
  = (if starts_with n (String x s) then 1 else 0) + occurrences n s.
Proof. reflexivity. Qed.

Lemma occurrences_absent n s : contains n s = false → occurrences n s = 0.
Proof.
  induction s as [|x s IH]; simpl.
  - rewrite orb_false_r. by intros ->.
  - intros [-> H]%orb_false_iff. by rewrite IH.
Qed.

Lemma occurrences_app_clean n a b :
  n ≠ "" → clean_split n a b →
  occurrences n (a +:+ b) = occurrences n a + occurrences n b.
Proof.
  intros Hn. induction a as [|x a IH]; intros H.
  - rewrite str_app_nil_l. by destruct n.
  - rewrite str_app_cons, !occurrences_cons, <- str_app_cons.
    rewrite clean_split_starts by done. rewrite IH; [lia|].
    by eapply clean_split_tail.
Qed.

Lemma occurrences_head_close_concat parts :
  Forall (λ t, contains head_close t = false) parts →
  occurrences head_close (String.concat head_close parts)
  = length parts - 1.
Proof.
  induction 1 as [|t parts Ht Hparts IH]; [done|].
  destruct parts as [|t' parts].
  { simpl String.concat. by rewrite occurrences_absent. }
  rewrite concat_cons.
  rewrite occurrences_app_clean; [|done|by apply clean_split_hd].
  rewrite occurrences_app_clean;
    [|done|by apply (clean_split_behind _ ">")].
  rewrite IH, occurrences_absent by done. simpl. lia.
Qed.

Lemma str_replace_head_close_concat parts :
  Forall (λ t, contains head_close t = false) parts →
  str_replace head_close head_with_link (String.concat head_close parts)
  = String.concat head_with_link parts.
Proof.
  induction 1 as [|t parts Ht Hparts IH]; [done|].
  destruct parts as [|t' parts].
  { simpl String.concat. by apply str_replace_absent. }
  rewrite !concat_cons.
  rewrite str_replace_first; [|done|done|by apply clean_split_hd].
  by rewrite IH.
Qed.
End stylesheet.

(** C7. The stylesheet step puts the link in front of the closing head
    marker exactly when the text does not name the icon family: a text
    that names it is returned as it is, and a text that does not gets the
    link, a line break and the marker in place of the marker.  The step
    changes the text exactly when the family is absent and the marker
    present.  In a document without the marker the step has no effect,
    so that the patched text is the text after the sidebar step. *)
Theorem stylesheet_assurance (page_name content : string) :
  (contains icon_family content = true → ensure_icon_link content = content) ∧
  (contains icon_family content = false →
   ∀ u v, content = u +:+ head_close +:+ v → contains head_close u = false →
     ensure_icon_link content
     = u +:+ icon_link +:+ nl +:+ head_close
         +:+ str_replace head_close head_with_link v) ∧
  (ensure_icon_link content ≠ content
   ↔ contains icon_family content = false
     ∧ contains head_close content = true) ∧
  (contains head_close content = false →
     ensure_icon_link content = content ∧
     patch page_name content = update_sidebar page_name content).
Proof.
  split_and!.
  - apply ensure_icon_link_present.
  - intros Hfam u v. by apply ensure_icon_link_first.
  - apply ensure_icon_link_changes.
  - intros Hhead. split; [by apply ensure_icon_link_no_head|].
    unfold patch. apply ensure_icon_link_no_head.
    apply contains_update_sidebar; [done..|apply get_sidebar_no_head|done].
Qed.

Lemma stylesheet_assurance_witness :
  ensure_icon_link "<head><title>t</title></head><body></body>"
  = "<head><title>t</title>" +:+ icon_link +:+ nl +:+ "</head><body></body>"
  ∧ ensure_icon_link "<body>no head marker</body>"
    = "<body>no head marker</body>".
Proof.
  destruct (stylesheet_assurance "Dashboard"
    "<head><title>t</title></head><body></body>") as (_ & H & _).
  destruct (stylesheet_assurance "Dashboard" "<body>no head marker</body>")
    as (_ & _ & _ & H').
  split.
  - apply (H eq_refl "<head><title>t</title>" "<body></body>"); reflexivity.
  - apply H'. reflexivity.
Defined.

(** C10. When the text does not name the icon family, the link goes in
    front of every closing head marker: a text made of pieces without
    the marker, joined by the marker, has one occurrence of the marker
    between each two pieces, and the step returns the same pieces joined
    by the link, a line break and the marker. *)
Theorem stylesheet_link_before_every_head (parts : list string) :
  Forall (λ t, contains head_close t = false) parts →
  contains icon_family (String.concat head_close parts) = false →
  occurrences head_close (String.concat head_close parts) = length parts - 1 ∧
  ensure_icon_link (String.concat head_close parts)
  = String.concat (icon_link +:+ nl +:+ head_close) parts.
Proof.
  intros Hparts Hfam. split.
  - by apply occurrences_head_close_concat.
  - rewrite ensure_icon_link_absent by done.
    by apply str_replace_head_close_concat.
Qed.

Lemma stylesheet_link_before_every_head_witness :
  occurrences head_close "<head>a</head><head>b</head>c" = 2 ∧
  ensure_icon_link "<head>a</head><head>b</head>c"
  = "<head>a" +:+ icon_link +:+ nl +:+ "</head><head>b"
      +:+ icon_link +:+ nl +:+ "</head>c".
Proof.
  destruct (stylesheet_link_before_every_head ["<head>a"; "<head>b"; "c"])
    as [H1 H2].
  - repeat constructor.
  - reflexivity.
  - split; [exact H1|exact H2].
Defined.

(** * Running the patcher twice *)

Lemma run_run_fs (w : world) : fs (run (run w)) = fs (run w).
Proof.
  apply map_eq. intros p.
  destruct (decide (p ∈ entry_path <$> files)) as [Hp|Hp].
  - apply list_elem_of_fmap in Hp as (e & -> & He).
    rewrite !run_lookup by done.
    destruct (fs w !! entry_path e) as [content|]; [|done]. simpl.
    by rewrite patch_idem.
  - rewrite (run_fs (run w)), run_over_lookup_other; [done|].
    intros e He <-. apply Hp. by apply list_elem_of_fmap_2.
Qed.

(** C5. Patching a patched document gives the same text.  The stylesheet
    step of the second pass adds nothing: when the text after the sidebar
    step has a closing head marker, the patched text names the icon
    family.  The sidebar step of the second pass returns the patched text:
    when the first pass found a container, the second finds the fragment
    and puts the same fragment in its place.  The fragment holds no
    nested aside: it has one opening and one closing aside tag.  A second
    run leaves the disk of the first run as it is. *)
Theorem patcher_idempotent (w : world) (page_name content : string) :
  patch page_name (patch page_name content) = patch page_name content ∧
  ensure_icon_link (patch page_name content) = patch page_name content ∧
  (contains head_close (update_sidebar page_name content) = true →
     contains icon_family (patch page_name content) = true) ∧
  update_sidebar page_name (patch page_name content)
  = patch page_name content ∧
  (∀ pre post,
     re_search aside_pattern content = Some (pre, post) →
     ∃ pre' post',
       patch page_name content
       = pre' +:+ get_sidebar page_name +:+ post' ∧
       re_search aside_pattern (patch page_name content)
       = Some (pre', post')) ∧
  occurrences "<aside" (get_sidebar page_name) = 1 ∧
  occurrences "</aside>" (get_sidebar page_name) = 1 ∧
  fs (run (run w)) = fs (run w).
Proof.
  split_and!.
  - apply patch_idem.
  - apply ensure_icon_link_idem.
  - intros Hhead. unfold patch.
    destruct (contains icon_family (update_sidebar page_name content)) eqn:E.
    + by rewrite ensure_icon_link_present.
    + rewrite ensure_icon_link_absent by done.
      by apply contains_family_replace.
  - apply update_sidebar_patch.
  - intros pre post E.
    pose proof (update_sidebar_Some page_name _ _ _ E) as Hup.
    pose proof (patch_around_fragment _ _ _ _ Hup) as Hpatch.
    simpl in Hpatch. do 2 eexists. split; [exact Hpatch|].
    rewrite Hpatch. apply re_search_fragment.
    destruct (contains icon_family _).
    + change (add_links true pre) with pre. by eapply re_search_aside_pre.
    + rewrite add_links_false, contains_open_replace.
      by eapply re_search_aside_pre.
  - revert page_name. by_fragments.
  - revert page_name. by_fragments.
  - apply run_run_fs.
Qed.

Lemma patcher_idempotent_witness :
  patch "Dashboard" (patch "Dashboard" old_page) = get_sidebar "Dashboard".
Proof.
  destruct (patcher_idempotent (World ∅ []) "Dashboard" old_page) as [H _].
  rewrite H. vm_compute. reflexivity.
Defined.

(** * Further properties of the run *)

Section disk.
Implicit Types (w : world) (e : string * string) (es : list (string * string)).
Implicit Types (p : string) (disk : gmap string string).

Lemma entry_events_missing es disk :
  (∀ e, e ∈ es → disk !! entry_path e = None) →
  es ≫= entry_events disk
  = (λ e, Printed ("Skipping " +:+ e.1 +:+ ", does not exist")) <$> es.
Proof.
  induction es as [|e es IH]; intros H; [done|].
  rewrite bind_cons, fmap_cons, IH.
  - unfold entry_events. rewrite (H e); [done|]. apply elem_of_cons. by left.
  - intros e' He'. apply H, elem_of_cons. by right.
Qed.

Lemma touches_bind es disk p ev :
  ev ∈ es ≫= entry_events disk → touches p ev = true →
  p ∈ entry_path <$> es ∧ is_Some (disk !! p).
Proof.
  intros (e & Hev & He)%list_elem_of_bind Ht.
  destruct (touches_entry_events _ _ _ _ Hev Ht) as [-> Hsome].
  split; [|done]. by apply list_elem_of_fmap_2.
Qed.

End disk.

(** X1. A run creates no file, deletes none, and leaves every file
    outside the eight configured paths as it is. *)
Theorem run_keeps_other_files (w : world) (p : string) :
  p ∉ entry_path <$> files →
  fs (run w) !! p = fs w !! p ∧ dom (fs (run w)) = dom (fs w).
Proof.
  intros Hp. rewrite run_fs. split; [|apply run_over_dom].
  apply run_over_lookup_other. intros e He <-. apply Hp.
  by apply list_elem_of_fmap_2.
Qed.

Lemma run_keeps_other_files_witness :
  fs (run (World {[ ".designs/notes.html" := old_page ]} []))
    !! ".designs/notes.html"
  = Some old_page.
Proof.
  destruct (run_keeps_other_files
    (World {[ ".designs/notes.html" := old_page ]} []) ".designs/notes.html")
    as [H _].
  - intros Hin. apply (bool_decide_pack _) in Hin. vm_compute in Hin.
    exact Hin.
  - rewrite H. reflexivity.
Defined.

(** X2. The order of the entries does not matter for the disk: the loop
    over a list of entries with different paths and the loop over any
    rearrangement of the list end with the same files. *)
Theorem run_over_order_irrelevant
    (es es' : list (string * string)) (w : world) :
  NoDup (entry_path <$> es) → es ≡ₚ es' →
  fs (run_over es' w) = fs (run_over es w).
Proof.
  intros Hnd Hperm.
  assert (NoDup (entry_path <$> es')) as Hnd' by by rewrite <- Hperm.
  apply map_eq. intros p.
  destruct (decide (p ∈ entry_path <$> es)) as [Hp|Hp].
  - apply list_elem_of_fmap in Hp as (e & -> & He).
    rewrite !run_over_lookup; [done..|]. by rewrite <- Hperm.
  - rewrite !run_over_lookup_other; [done| |].
    + intros e He <-. apply Hp. by apply list_elem_of_fmap_2.
    + intros e He <-. apply Hp. apply list_elem_of_fmap_2.
      by rewrite Hperm.
Qed.

Lemma run_over_order_irrelevant_witness :
  fs (run_over [("toolkit.html", "Toolkit"); ("ai.html", "AI Assistant")]
        (World {[ ".designs/ai.html" := old_page ]} []))
  = fs (run_over [("ai.html", "AI Assistant"); ("toolkit.html", "Toolkit")]
        (World {[ ".designs/ai.html" := old_page ]} [])).
Proof.
  apply (run_over_order_irrelevant
    [("ai.html", "AI Assistant"); ("toolkit.html", "Toolkit")]).
  - apply (bool_decide_unpack _). vm_compute. exact I.
  - apply perm_swap.
Defined.

(** X3. Every file that a run reads or writes is one of the configured
    paths, and it existed when the run began. *)
Theorem run_touches_only_existing_pages (w : world) :
  ∃ evs,
    log (run w) = log w ++ evs ∧
    ∀ ev p, ev ∈ evs → touches p ev = true →
      p ∈ entry_path <$> files ∧ is_Some (fs w !! p).
Proof.
  eexists. split; [apply run_log|]. intros ev p Hev Ht.
  apply elem_of_app in Hev as [Hev|Hev].
  - by eapply touches_bind.
  - by apply list_elem_of_singleton in Hev as ->.
Qed.

(** X4. A run writes a configured path once when the file exists and
    never otherwise, and the text it writes is the text that the file has
    after the run; no other path is written. *)
Theorem run_writes_final_text (w : world) :
  ∃ evs,
    log (run w) = log w ++ evs ∧
    ∀ p,
      written p evs =
      if decide (p ∈ entry_path <$> files)
      then option_list (fs (run w) !! p)
      else [].
Proof.
  eexists. split; [apply run_log|]. intros p. rewrite written_app.
  change (written p [Printed "All files processed."]) with (@nil string).
  rewrite app_nil_r. case_decide as Hp.
  - apply list_elem_of_fmap in Hp as (e & -> & He).
    rewrite (written_bind _ _ e), run_lookup
      by (done || apply files_paths_NoDup).
    by destruct (fs w !! entry_path e).
  - apply written_bind_other. intros e He <-. apply Hp.
    by apply list_elem_of_fmap_2.
Qed.

(** X5. What a run prints and which files it reads and writes, with which
    texts, depends on the disk only through the configured files: two
    disks that agree on the eight paths give the same events. *)
Theorem run_depends_on_pages_only (w w' : world) :
  (∀ e, e ∈ files → fs w !! entry_path e = fs w' !! entry_path e) →
  ∃ evs, log (run w) = log w ++ evs ∧ log (run w') = log w' ++ evs.
Proof.
  intros H. eexists. split; [apply run_log|]. rewrite run_log.
  do 2 f_equal. apply Forall_bind_ext, Forall_forall. intros e He.
  symmetry. by apply entry_events_ext, H.
Qed.

Lemma run_depends_on_pages_only_witness :
  log (run (World {[ ".designs/notes.html" := old_page ]} []))
  = log (run (World ∅ [])).
Proof.
  destruct (run_depends_on_pages_only
    (World {[ ".designs/notes.html" := old_page ]} []) (World ∅ []))
    as (evs & H1 & H2).
  - intros e He. unfold files in He.
    repeat (apply elem_of_cons in He as [-> | He]);
      [reflexivity..|by apply elem_of_nil in He].
  - rewrite H1, H2. reflexivity.
Defined.

(** X6. When none of the configured files exists, a run changes nothing
    on the disk and prints the eight skip notices, in the order of
    [files], and the closing line. *)
Theorem run_without_pages (w : world) :
  (∀ e, e ∈ files → fs w !! entry_path e = None) →
  fs (run w) = fs w ∧
  log (run w)
  = log w
    ++ ((λ e, Printed ("Skipping " +:+ e.1 +:+ ", does not exist")) <$> files)
    ++ [Printed "All files processed."].
Proof.
  intros H. split.
  - apply map_eq. intros p.
    destruct (decide (p ∈ entry_path <$> files)) as [Hp|Hp].
    + apply list_elem_of_fmap in Hp as (e & -> & He).
      by rewrite run_lookup, (H e He).
    + rewrite run_fs. apply run_over_lookup_other. intros e He <-.
      apply Hp. by apply list_elem_of_fmap_2.
  - by rewrite run_log, entry_events_missing.
Qed.

Lemma run_without_pages_witness :
  fs (run (World {[ "index.html" := plain_page ]} []))
  = {[ "index.html" := plain_page ]}.
Proof.
  destruct (run_without_pages (World {[ "index.html" := plain_page ]} []))
    as [H _].
  - intros e He. unfold files in He.
    repeat (apply elem_of_cons in He as [-> | He]);
      [reflexivity..|by apply elem_of_nil in He].
  - exact H.
Defined.

(** * Further properties of the two steps *)

Section more_steps.
Implicit Types (c s u v pre post p q n : string).

Lemma re_search_is_Some_iff s :
  is_Some (re_search aside_pattern s)
  ↔ ∃ a x y b,
      s = a +:+ "<aside" +:+ x +:+ ">" +:+ y +:+ "</aside>" +:+ b.
Proof.
  split.
  - intros [[pre post] (x & y & ->)%re_search_aside_split]. eauto.
  - intros (a & x & y & b & ->).
    destruct (re_search aside_pattern _) as [r|] eqn:E; [by eexists|].
    assert (lang aside_pattern ("<aside" +:+ x +:+ ">" +:+ y +:+ "</aside>"))
      as Hm by (apply lang_aside; eauto).
    destruct (match_here_complete _ _ b Hm) as [r Hr].
    rewrite !str_app_assoc in Hr.
    by rewrite (re_search_None _ _ a _ E eq_refl) in Hr.
Qed.

Lemma get_sidebar_shape p :
  ∃ x y, get_sidebar p = "<aside" +:+ x +:+ ">" +:+ y +:+ "</aside>".
Proof.
  destruct (match_here_sound _ _ _ (get_sidebar_match p)) as (m & Hm & Hl).
  rewrite str_app_nil_r in Hm. subst m. by apply lang_aside.
Qed.

Lemma re_search_holding_fragment p a b :
  is_Some (re_search aside_pattern (a +:+ get_sidebar p +:+ b)).
Proof.
  destruct (get_sidebar_shape p) as (x & y & ->).
  apply re_search_is_Some_iff. exists a, x, y, b. by rewrite !str_app_assoc.
Qed.

Lemma update_sidebar_other q p c :
  update_sidebar q (update_sidebar p c) = update_sidebar q c.
Proof.
  destruct (re_search aside_pattern c) as [[pre post]|] eqn:E.
  - rewrite (update_sidebar_Some p _ _ _ E), (update_sidebar_Some q _ _ _ E).
    apply update_sidebar_Some.
    by eapply re_search_fragment, re_search_aside_pre.
  - rewrite (update_sidebar_None p _ E). by rewrite !(update_sidebar_None q _ E).
Qed.

Lemma contains_family_update_sidebar q p c :
  contains icon_family (update_sidebar q c)
  = contains icon_family (update_sidebar p c).
Proof.
  destruct (re_search aside_pattern c) as [[pre post]|] eqn:E.
  - rewrite (update_sidebar_Some p _ _ _ E), (update_sidebar_Some q _ _ _ E).
    rewrite !(contains_app_clean icon_family pre)
      by by apply clean_before_fragment.
    rewrite !(contains_app_clean icon_family (get_sidebar _))
      by by apply clean_behind_fragment.
    by rewrite !get_sidebar_no_family.
  - by rewrite (update_sidebar_None p _ E), (update_sidebar_None q _ E).
Qed.

Lemma update_sidebar_add_links q p present c :
  update_sidebar q (add_links present (update_sidebar p c))
  = add_links present (update_sidebar q c).
Proof.
  destruct present; [apply update_sidebar_other|].
  destruct (re_search aside_pattern c) as [[pre post]|] eqn:E.
  - rewrite (update_sidebar_Some p _ _ _ E), (update_sidebar_Some q _ _ _ E).
    rewrite !add_links_around_fragment. apply update_sidebar_Some.
    apply re_search_fragment.
    rewrite add_links_false, contains_open_replace.
    by eapply re_search_aside_pre.
  - rewrite (update_sidebar_None p _ E), (update_sidebar_None q _ E).
    rewrite add_links_false.
    by apply update_sidebar_None, re_search_replace_None.
Qed.

Lemma patch_other q p c : patch q (patch p c) = patch q c.
Proof.
  unfold patch at 2. rewrite ensure_icon_link_add_links.
  unfold patch at 1. rewrite update_sidebar_add_links.
  rewrite (contains_family_update_sidebar p q).
  rewrite <- ensure_icon_link_add_links. apply ensure_icon_link_idem.
Qed.

Lemma contains_head_replace s :
  contains head_close (str_replace head_close head_with_link s)
  = contains head_close s.
Proof.
  apply (str_replace_ind (λ s s', contains head_close s' = contains head_close s));
    [done|done|].
  intros u v _ _ _.
  rewrite (contains_app_r _ u (head_close +:+ v)) by apply contains_self.
  by apply contains_app_r, contains_app_l.
Qed.

Lemma patch_names_family p c :
  contains head_close (patch p c) = true →
  contains icon_family (patch p c) = true.
Proof.
  unfold patch.
  destruct (contains icon_family (update_sidebar p c)) eqn:E.
  - by rewrite ensure_icon_link_present.
  - rewrite ensure_icon_link_absent by done. rewrite contains_head_replace.
    apply contains_family_replace.
Qed.

Lemma ensure_icon_link_keeps_search c :
  re_search aside_pattern c = None →
  re_search aside_pattern (ensure_icon_link c) = None.
Proof.
  intros H. unfold ensure_icon_link. destruct (negb _); [|done].
  by apply re_search_replace_None.
Qed.

Lemma str_replace_head_counts s :
  occurrences head_close (str_replace head_close head_with_link s)
  = occurrences head_close s
  ∧ String.length (str_replace head_close head_with_link s)
    = String.length s
      + occurrences head_close s * (String.length icon_link + 1).
Proof.
  apply (str_replace_ind (λ s s',
    occurrences head_close s' = occurrences head_close s
    ∧ String.length s'
      = String.length s
        + occurrences head_close s * (String.length icon_link + 1)));
    [done| |].
  - intros t Ht. rewrite occurrences_absent by done. split; [done|lia].
  - intros u v Hu _ [IH1 IH2].
    rewrite (occurrences_app_clean _ u (head_close +:+ v));
      [|done|by apply (clean_split_before _ "<")].
    rewrite (occurrences_app_clean _ u (head_with_link +:+ _));
      [|done|by apply (clean_split_before _ "<")].
    rewrite (occurrences_app_clean _ head_close);
      [|done|by apply (clean_split_behind _ ">")].
    rewrite (occurrences_app_clean _ head_with_link);
      [|done|by apply (clean_split_behind _ ">")].
    rewrite !str_length_app, IH1, IH2, (occurrences_absent _ u) by done.
    change (occurrences head_close head_close) with 1.
    change (occurrences head_close head_with_link) with 1.
    change (String.length head_with_link)
      with (String.length icon_link + 1 + String.length head_close).
    split; lia.
Qed.
End more_steps.

(** X7. The sidebar step finds nothing exactly when no part of the text
    has the shape [<aside ... > ... </aside>]; in particular a text
    without [<aside], or without [</aside>] (an aside that is never
    closed), stays as it is. *)
Theorem sidebar_step_needs_container (page_name content : string) :
  (re_search aside_pattern content = None
   ↔ ¬ ∃ a x y b,
         content
         = a +:+ "<aside" +:+ x +:+ ">" +:+ y +:+ "</aside>" +:+ b) ∧
  (contains "<aside" content = false ∨ contains "</aside>" content = false →
   re_search aside_pattern content = None ∧
   update_sidebar page_name content = content).
Proof.
  assert (re_search aside_pattern content = None
    ↔ ¬ ∃ a x y b,
          content
          = a +:+ "<aside" +:+ x +:+ ">" +:+ y +:+ "</aside>" +:+ b) as Hiff.
  { rewrite <- re_search_is_Some_iff, <- eq_None_not_Some. done. }
  split; [done|]. intros Hno.
  assert (re_search aside_pattern content = None) as Hnone.
  { apply Hiff. intros (a & x & y & b & ->). destruct Hno as [Hno|Hno].
    - by rewrite contains_app_r in Hno by apply contains_self.
    - rewrite (contains_app_r "</aside>" a) in Hno; [done|].
      do 4 apply contains_app_r. apply contains_self. }
  split; [done|]. by apply update_sidebar_None.
Qed.

Lemma sidebar_step_needs_container_witness :
  update_sidebar "General" "<body><aside class=x>never closed</body>"
  = "<body><aside class=x>never closed</body>".
Proof.
  destruct (sidebar_step_needs_container "General"
    "<body><aside class=x>never closed</body>") as [_ H].
  apply H. right. reflexivity.
Defined.

(** X8. Patching a text for one page and then for another gives what
    patching it for the second page alone gives: the last display name
    decides the fragment, and the links are not put in twice. *)
Theorem patch_last_page_wins (page_name page_name' content : string) :
  update_sidebar page_name' (update_sidebar page_name content)
  = update_sidebar page_name' content ∧
  patch page_name' (patch page_name content) = patch page_name' content.
Proof. split; [apply update_sidebar_other|apply patch_other]. Qed.

(** X9. After a run, every configured file that has a closing head
    marker names the icon font family. *)
Theorem run_links_icon_font (w : world) (filename page_name text : string) :
  (filename, page_name) ∈ files →
  fs (run w) !! path_join design_dir filename = Some text →
  contains head_close text = true →
  contains icon_family text = true.
Proof.
  intros Hin Htext Hhead.
  change (path_join design_dir filename)
    with (entry_path (filename, page_name)) in *.
  rewrite (run_lookup w (filename, page_name) Hin) in Htext.
  destruct (fs w !! entry_path (filename, page_name)) as [c|]; [|done].
  injection Htext as <-. by apply patch_names_family.
Qed.

Lemma run_links_icon_font_witness :
  contains icon_family
    (patch "Toolkit" "<head><title>t</title></head><body></body>") = true.
Proof.
  apply (run_links_icon_font
    (World {[ ".designs/toolkit.html" :=
                "<head><title>t</title></head><body></body>" ]} [])
    "toolkit.html" "Toolkit").
  - apply (bool_decide_unpack _). vm_compute. exact I.
  - vm_compute. reflexivity.
  - vm_compute. reflexivity.
Defined.

Lemma fragments_distinct x y :
  x ∈ "" :: nav_labels → y ∈ "" :: nav_labels →
  get_sidebar x = get_sidebar y → x = y.
Proof.
  intros Hx Hy Heq.
  assert (forallb (λ x, forallb (λ y,
    implb (String.eqb (get_sidebar x) (get_sidebar y)) (String.eqb x y))
    ("" :: nav_labels)) ("" :: nav_labels) = true) as Hall
    by (vm_compute; reflexivity).
  apply list_elem_of_In in Hx, Hy.
  pose proof (proj1 (forallb_forall _ _) Hall x Hx) as Hrow.
  cbv beta in Hrow.
  pose proof (proj1 (forallb_forall _ _) Hrow y Hy) as Hxy.
  cbv beta in Hxy.
  rewrite Heq, String.eqb_refl in Hxy. by apply String.eqb_eq.
Qed.

(** X10. Two active pages give the same fragment exactly when they
    select the same link: the fragments of two labels of links differ,
    and all the labels that no link has share one fragment. *)
Theorem fragment_decides_active_link (a b : string) :
  get_sidebar a = get_sidebar b
  ↔ ∀ l, l ∈ nav_labels → (l = a ↔ l = b).
Proof.
  split.
  - intros Heq. rewrite (get_sidebar_canon a), (get_sidebar_canon b) in Heq.
    apply fragments_distinct in Heq; [|apply canon_page_elem..].
    assert ("" ∉ nav_labels) as Hempty.
    { intros H. apply (bool_decide_pack _) in H. by vm_compute in H. }
    unfold canon_page in Heq. intros l Hl.
    destruct (decide (a ∈ nav_labels)), (decide (b ∈ nav_labels));
      subst; try done; split; intros ->; done.
  - intros H. apply get_sidebar_ext. intros l Hl. specialize (H l Hl).
    destruct (String.eqb_spec l a) as [Ha|Ha],
      (String.eqb_spec l b) as [Hb|Hb]; try done.
    + destruct Hb. by apply H.
    + destruct Ha. by apply H.
Qed.

(** X11. The patched text holds the fragment of the page exactly when
    the text had an aside container to replace. *)
Theorem patched_holds_fragment_iff_container (page_name content : string) :
  contains (get_sidebar page_name) (patch page_name content) = true
  ↔ ∃ a x y b,
      content = a +:+ "<aside" +:+ x +:+ ">" +:+ y +:+ "</aside>" +:+ b.
Proof.
  rewrite <- re_search_is_Some_iff. split.
  - intros (a & b & Hab)%contains_true.
    destruct (re_search aside_pattern content) as [r|] eqn:E; [by eexists|].
    assert (re_search aside_pattern (patch page_name content) = None) as Hn.
    { unfold patch. apply ensure_icon_link_keeps_search.
      by rewrite (update_sidebar_None _ _ E). }
    destruct (re_search_holding_fragment page_name a b) as [r Hr].
    congruence.
  - intros [[pre post] E].
    pose proof (update_sidebar_Some page_name _ _ _ E) as Hup.
    rewrite (patch_around_fragment _ _ _ _ Hup).
    apply contains_app_r, contains_self.
Qed.

(** X12. The stylesheet step only inserts: it keeps the number of
    closing head markers, and the text grows by one link and one line
    break for each of them when the icon family is not named, and not at
    all when it is. *)
Theorem stylesheet_step_only_inserts (content : string) :
  occurrences head_close (ensure_icon_link content)
  = occurrences head_close content ∧
  String.length (ensure_icon_link content)
  = String.length content
    + (if contains icon_family content then 0
       else occurrences head_close content * (String.length icon_link + 1)).
Proof.
  unfold ensure_icon_link. destruct (contains icon_family content); simpl.
  - split; [done|lia].
  - apply str_replace_head_counts.
Qed.

(** X13. The notice "Added Material Icons link" is printed for an
    existing file exactly when the text after the sidebar step does not
    name the icon family, whether or not a link is put in: without a
    closing head marker the notice is printed and the text written is the
    text after the sidebar step. *)
Theorem link_notice_without_insertion
    (w : world) (filename page_name content : string) :
  fs w !! path_join design_dir filename = Some content →
  ∃ evs,
    log (process_file w (filename, page_name)) = log w ++ evs ∧
    (Printed ("Added Material Icons link to " +:+ filename) ∈ evs
     ↔ contains icon_family (update_sidebar page_name content) = false) ∧
    (contains head_close (update_sidebar page_name content) = false →
     fs (process_file w (filename, page_name))
       !! path_join design_dir filename
     = Some (update_sidebar page_name content)).
Proof.
  intros Hdoc.
  change (path_join design_dir filename)
    with (entry_path (filename, page_name)) in *.
  rewrite process_file_spec. simpl. eexists. split; [done|]. split.
  - unfold entry_events. rewrite Hdoc. simpl.
    rewrite !elem_of_cons, elem_of_app, elem_of_cons, elem_of_nil.
    unfold sidebar_notice. split.
    + intros [H|[H|[H|[H|[]]]]]; try done.
      * injection H as H.
        destruct (re_search aside_pattern content);
          rewrite !str_app_cons in H; done.
      * by destruct (contains icon_family _); [apply elem_of_nil in H|].
    + intros ->. right. right. left. by apply list_elem_of_singleton.
  - intros Hhead. rewrite Hdoc, lookup_insert_eq. f_equal.
    unfold patch. by apply ensure_icon_link_no_head.
Qed.

Lemma link_notice_without_insertion_witness :
  Printed "Added Material Icons link to general.html"
    ∈ log (process_file (World {[ ".designs/general.html" := plain_page ]} [])
             ("general.html", "General")) ∧
  fs (process_file (World {[ ".designs/general.html" := plain_page ]} [])
        ("general.html", "General")) !! ".designs/general.html"
  = Some plain_page.
Proof.
  destruct (link_notice_without_insertion
    (World {[ ".designs/general.html" := plain_page ]} [])
    "general.html" "General" plain_page) as (evs & Hlog & Hiff & Hfs).
  - reflexivity.
  - split.
    + rewrite Hlog. apply elem_of_app. right. apply Hiff. reflexivity.
    + apply Hfs. reflexivity.
Defined.

(** X14. Patching neither makes nor removes an aside container, so a
    second run prints for every file the sidebar notice of the first
    run: "Updated sidebar" again for a file with a container, although
    its text does not change any more, and the warning again for a file
    without one. *)
Theorem patch_keeps_sidebar_notice (filename page_name content : string) :
  (re_search aside_pattern (patch page_name content) = None
   ↔ re_search aside_pattern content = None) ∧
  sidebar_notice filename (patch page_name content)
  = sidebar_notice filename content.
Proof.
  assert (re_search aside_pattern (patch page_name content) = None
    ↔ re_search aside_pattern content = None) as Hiff.
  { split.
    - intros Hn.
      destruct (re_search aside_pattern content) as [[pre post]|] eqn:E;
        [|done].
      pose proof (update_sidebar_Some page_name _ _ _ E) as Hup.
      rewrite (patch_around_fragment _ _ _ _ Hup) in Hn.
      destruct (re_search_holding_fragment page_name
        (add_links (contains icon_family (update_sidebar page_name content))
           pre)
        (add_links (contains icon_family (update_sidebar page_name content))
           post)) as [r Hr].
      congruence.
    - intros E. unfold patch. apply ensure_icon_link_keeps_search.
      by rewrite (update_sidebar_None _ _ E). }
  split; [done|]. unfold sidebar_notice.
  destruct Hiff as [H1 H2].
  destruct (re_search aside_pattern content) as [r|],
    (re_search aside_pattern (patch page_name content)) as [r'|];
    try done.
  - by specialize (H1 eq_refl).
  - by specialize (H2 eq_refl).
Qed.
